(** * ragnarok: the React front end and the retrieval contract

    A shallow embedding of the TypeScript sources

    - [services/api.ts]: the typed HTTP client,
    - [components/CreateProject.tsx]: the create-project form,
    - [components/ProjectChatInterface.tsx]: the chat view,

    together with models of the retrieval contract, the message store and
    the query operation of the design document, which the Python back end
    implements.

    React state is a record; a handler is a function on that record.  An
    [async] handler is cut at its [await]: the part before it runs against
    the state of the render that created the handler and issues the request,
    the part after it runs when the promise settles, against whatever the
    state is by then, with the values the closure captured. *)

From Stdlib Require Import String Ascii DecimalString.
From Stdlib Require DecimalZ.
From Stdlib Require Import ZArith NArith List Bool Lia.
From Stdlib Require Import Sorting.Permutation Sorting.Sorted.
Import ListNotations.

Set Implicit Arguments.

(** ** JavaScript values *)

Module JS.

(** A JavaScript string is a sequence of UTF-16 code units. *)
Definition jsstring := list N.

(** A source literal (ASCII) as a JavaScript string. *)
Definition lit (s : string) : jsstring :=
  map N_of_ascii (list_ascii_of_string s).

Definition code_eqb : N -> N -> bool := N.eqb.

Fixpoint str_eqb (a b : jsstring) : bool :=
  match a, b with
  | [], [] => true
  | x :: a', y :: b' => code_eqb x y && str_eqb a' b'
  | _, _ => false
  end.

(** [WhiteSpace] and [LineTerminator] of ECMAScript, the code units that
    [String.prototype.trim] strips. *)
Definition isWhiteSpace (c : N) : bool :=
  let eq x := N.eqb c x in
  (eq 0x09 || eq 0x0A || eq 0x0B || eq 0x0C || eq 0x0D || eq 0x20 ||
   eq 0xA0 || eq 0x1680 || (N.leb 0x2000 c && N.leb c 0x200A) ||
   eq 0x2028 || eq 0x2029 || eq 0x202F || eq 0x205F || eq 0x3000 ||
   eq 0xFEFF)%N.

Fixpoint trimStart (s : jsstring) : jsstring :=
  match s with
  | [] => []
  | c :: r => if isWhiteSpace c then trimStart r else s
  end.

Fixpoint trimEnd (s : jsstring) : jsstring :=
  match s with
  | [] => []
  | c :: r =>
      match trimEnd r with
      | [] => if isWhiteSpace c then [] else [c]
      | r' => c :: r'
      end
  end.

(** [s.trim()] *)
Definition trim (s : jsstring) : jsstring := trimEnd (trimStart s).

(** Truthiness of a string: every string but the empty one. *)
Definition truthy (s : jsstring) : bool :=
  match s with [] => false | _ :: _ => true end.

(** [n.toString()] for an integral number. *)
Definition toString (n : Z) : jsstring :=
  lit (NilZero.string_of_int (Z.to_int n)).

(** What a [catch] clause receives: an [Error] instance with its
    message, or any other thrown value. *)
Inductive thrown : Type :=
| ErrorInstance (message : jsstring)
| OtherValue.

(** [err instanceof Error ? err.message : fallback] *)
Definition messageOr (fallback : jsstring) (err : thrown) : jsstring :=
  match err with
  | ErrorInstance m => m
  | OtherValue => fallback
  end.

(** A settled promise. *)
Inductive settled (A : Type) : Type :=
| Fulfilled (value : A)
| Rejected (reason : thrown).
Arguments Rejected {A} reason.

(** [array.filter((x, i) => p x i)] *)
Fixpoint filter_from {A : Type} (p : A -> nat -> bool) (i : nat) (l : list A)
  : list A :=
  match l with
  | [] => []
  | x :: r => if p x i then x :: filter_from p (S i) r else filter_from p (S i) r
  end.

Definition filteri {A : Type} (p : A -> nat -> bool) (l : list A) : list A :=
  filter_from p 0 l.

(** A string is trimmed when [trim] leaves it as it is. *)
Definition trimmed (s : jsstring) : Prop := trim s = s.

End JS.

Import JS.

(** ** services/api.ts *)

Module Api.

Record Project : Type := {
  project_id : jsstring;
  project_name : jsstring;
  project_description : option jsstring;
  project_urls : list jsstring;
  project_created_at : jsstring;
  project_updated_at : jsstring
}.

Record Chat : Type := {
  chat_id : jsstring;
  chat_project_id : jsstring;
  chat_title : jsstring;
  chat_created_at : jsstring;
  chat_updated_at : jsstring
}.

Inductive Role : Type := user | assistant.

Record Message : Type := {
  id : jsstring;
  role : Role;
  content : jsstring;
  sources : list jsstring;
  created_at : jsstring
}.

Record QueryResponse : Type := {
  answer : jsstring;
  response_sources : list jsstring;
  message_id : jsstring
}.

(** The requests the client hands to axios. *)
Inductive Method : Type := GET | POST.

Inductive Field : Type :=
| FString (s : jsstring)
| FStrings (l : list jsstring).

Record Request : Type := {
  method : Method;
  url : jsstring;
  body : list (string * Field)
}.

Record Response (A : Type) : Type := { data : A }.

(** [const response = await send(request); return response.data;] *)
Definition returning_data {A : Type} (r : settled (Response A)) : settled A :=
  match r with
  | Fulfilled resp => Fulfilled (data resp)
  | Rejected e => Rejected e
  end.

Definition createProject_request (name description : jsstring)
           (urls : list jsstring) : Request :=
  {| method := POST;
     url := lit "/projects";
     body := [("name", FString name);
              ("description", FString description);
              ("urls", FStrings urls)]%string |}.

Definition createChat_request (projectId title : jsstring) : Request :=
  {| method := POST;
     url := lit "/chats";
     body := [("project_id", FString projectId);
              ("title", FString title)]%string |}.

Definition getChats_request (projectId : jsstring) : Request :=
  {| method := GET;
     url := lit "/projects/" ++ projectId ++ lit "/chats";
     body := [] |}.

Definition getMessages_request (chatId : jsstring) : Request :=
  {| method := GET;
     url := lit "/chats/" ++ chatId ++ lit "/messages";
     body := [] |}.

Definition queryRAG_request (chatId question : jsstring) : Request :=
  {| method := POST;
     url := lit "/query";
     body := [("chat_id", FString chatId);
              ("question", FString question)]%string |}.

Section Client.
(** The axios instance: what a request settles to. *)
Variable A : Type.
Variable send : Request -> settled (Response A).

Definition createProject (name description : jsstring) (urls : list jsstring)
  : settled A :=
  returning_data (send (createProject_request name description urls)).

Definition createChat (projectId title : jsstring) : settled A :=
  returning_data (send (createChat_request projectId title)).

Definition getChats (projectId : jsstring) : settled A :=
  returning_data (send (getChats_request projectId)).

Definition getMessages (chatId : jsstring) : settled A :=
  returning_data (send (getMessages_request chatId)).

Definition queryRAG (chatId question : jsstring) : settled A :=
  returning_data (send (queryRAG_request chatId question)).
End Client.

Definition getProjects_request : Request :=
  {| method := GET; url := lit "/projects"; body := [] |}.

Definition getProject_request (projectId : jsstring) : Request :=
  {| method := GET; url := lit "/projects/" ++ projectId; body := [] |}.

Definition checkHealth_request : Request :=
  {| method := GET; url := lit "/health"; body := [] |}.

End Api.

(** ** components/CreateProject.tsx *)

Module CreateProject.
Import Api.

Record State : Type := {
  name : jsstring;
  description : jsstring;
  urls : list jsstring;
  currentUrl : jsstring;
  loading : bool;
  error : option jsstring
}.

(** The [useState] initial values. *)
Definition init : State :=
  {| name := []; description := []; urls := [[]]; currentUrl := [];
     loading := false; error := None |}.

Definition setName (v : jsstring) (s : State) : State :=
  {| name := v; description := description s; urls := urls s;
     currentUrl := currentUrl s; loading := loading s; error := error s |}.
Definition setDescription (v : jsstring) (s : State) : State :=
  {| name := name s; description := v; urls := urls s;
     currentUrl := currentUrl s; loading := loading s; error := error s |}.
Definition setUrls (v : list jsstring) (s : State) : State :=
  {| name := name s; description := description s; urls := v;
     currentUrl := currentUrl s; loading := loading s; error := error s |}.
Definition setCurrentUrl (v : jsstring) (s : State) : State :=
  {| name := name s; description := description s; urls := urls s;
     currentUrl := v; loading := loading s; error := error s |}.
Definition setLoading (v : bool) (s : State) : State :=
  {| name := name s; description := description s; urls := urls s;
     currentUrl := currentUrl s; loading := v; error := error s |}.
Definition setError (v : option jsstring) (s : State) : State :=
  {| name := name s; description := description s; urls := urls s;
     currentUrl := currentUrl s; loading := loading s; error := v |}.

(** What a handler does besides updating the state. *)
Inductive Effect : Type :=
| CallCreateProject (name description : jsstring) (urls : list jsstring)
| OnProjectCreated.

(** The request [createProject] of the client sends for a call. *)
Definition request_of (e : Effect) : option Request :=
  match e with
  | CallCreateProject n d us => Some (createProject_request n d us)
  | OnProjectCreated => None
  end.

(** [url => url.trim()] as a filter predicate *)
Definition nonBlank (u : jsstring) : bool := truthy (trim u).

Definition addURL (s : State) : State :=
  if truthy (trim (currentUrl s)) then
    setCurrentUrl []
      (setUrls (filter nonBlank (urls s) ++ [trim (currentUrl s)]) s)
  else s.

Definition removeURL (index : nat) (s : State) : State :=
  setUrls (filteri (fun _ i => negb (Nat.eqb i index)) (urls s)) s.

(** [handleSubmit] up to its [await]. *)
Definition handleSubmit (s : State) : State * list Effect :=
  if negb (truthy (trim (name s))) then
    (setError (Some (lit "Project name is required")) s, [])
  else
    let validUrls := filter nonBlank (urls s) in
    if Nat.eqb (length validUrls) 0 && negb (truthy (trim (currentUrl s))) then
      (setError (Some (lit "At least one URL is required")) s, [])
    else
      let finalUrls :=
        if truthy (trim (currentUrl s))
        then validUrls ++ [trim (currentUrl s)]
        else validUrls in
      (setError None (setLoading true s),
       [CallCreateProject (trim (name s)) (trim (description s)) finalUrls]).

(** [handleUseDefaults] up to its [await]. *)
Definition handleUseDefaults (s : State) : State * list Effect :=
  if negb (truthy (trim (name s))) then
    (setError (Some (lit "Project name is required")) s, [])
  else
    (setError None (setLoading true s),
     [CallCreateProject (trim (name s)) (trim (description s)) []]).

(** The rest of either handler, once [createProject] has settled: the
    remainder of [try], the [catch] and the [finally]. *)
Definition settle (r : settled Project) (s : State) : State * list Effect :=
  match r with
  | Fulfilled _ => (setLoading false s, [OnProjectCreated])
  | Rejected err =>
      (setLoading false
         (setError (Some (messageOr (lit "Failed to create project") err)) s),
       [])
  end.

Definition handleKeyPress (key : jsstring) (shiftKey : bool) (s : State)
  : State :=
  if str_eqb key (lit "Enter") && negb shiftKey then addURL s else s.

(** Everything the user and the network can do to the form. *)
Inductive Event : Type :=
| TypeName (v : jsstring)
| TypeDescription (v : jsstring)
| TypeUrl (v : jsstring)
| ClickAdd
| ClickRemove (index : nat)
| KeyPress (key : jsstring) (shiftKey : bool)
| Submit
| UseDefaults
| Settled (r : settled Project).

Definition step (e : Event) (s : State) : State :=
  match e with
  | TypeName v => setName v s
  | TypeDescription v => setDescription v s
  | TypeUrl v => setCurrentUrl v s
  | ClickAdd => addURL s
  | ClickRemove i => removeURL i s
  | KeyPress k sh => handleKeyPress k sh s
  | Submit => fst (handleSubmit s)
  | UseDefaults => fst (handleUseDefaults s)
  | Settled r => fst (settle r s)
  end.

(** The state after a run of events, oldest first, from the initial one. *)
Definition run (es : list Event) : State :=
  fold_left (fun s e => step e s) es init.

Inductive reachable : State -> Prop :=
| reach_init : reachable init
| reach_step e s : reachable s -> reachable (step e s).

(** The stored URLs are always trimmed: the placeholder is the empty
    string, and [addURL] only ever stores a trimmed text. *)
Definition stored_trimmed (s : State) : Prop := Forall trimmed (urls s).

(** Some URL on the form, stored or still in the input box, is not
    blank. *)
Definition someUrlPresent (s : State) : Prop :=
  exists u, In u (urls s ++ [currentUrl s]) /\ trim u <> [].

(** The rendered URL list, [urls.filter(url => url.trim())]; the entry at
    position [index] of it has the button that calls [removeURL(index)]. *)
Definition displayed (s : State) : list jsstring := filter nonBlank (urls s).

(** The [disabled] attributes of the buttons. *)
Definition addDisabled (s : State) : bool :=
  negb (truthy (trim (currentUrl s))) || loading s.

Definition removeDisabled (s : State) : bool := loading s.

Definition submitDisabled (s : State) : bool :=
  loading s || negb (truthy (trim (name s)))
  || (Nat.eqb (length (filter nonBlank (urls s))) 0
      && negb (truthy (trim (currentUrl s)))).

Definition defaultDisabled (s : State) : bool :=
  loading s || negb (truthy (trim (name s))).

(** The stored list is the initial placeholder alone, or has no blank
    entry. *)
Definition placeholder_or_clean (s : State) : Prop :=
  urls s = [[]] \/ Forall (fun u => nonBlank u = true) (urls s).

End CreateProject.

(** ** components/ProjectChatInterface.tsx *)

Module ProjectChatInterface.
Import Api.

Record State : Type := {
  chats : list Chat;
  currentChat : option Chat;
  messages : list Message;
  currentMessage : jsstring;
  loading : bool;
  sidebarOpen : bool
}.

(** The [useState] initial values. *)
Definition init : State :=
  {| chats := []; currentChat := None; messages := []; currentMessage := [];
     loading := false; sidebarOpen := true |}.

Definition setChats (v : list Chat) (s : State) : State :=
  {| chats := v; currentChat := currentChat s; messages := messages s;
     currentMessage := currentMessage s; loading := loading s;
     sidebarOpen := sidebarOpen s |}.
Definition setCurrentChat (v : option Chat) (s : State) : State :=
  {| chats := chats s; currentChat := v; messages := messages s;
     currentMessage := currentMessage s; loading := loading s;
     sidebarOpen := sidebarOpen s |}.
Definition setMessages (v : list Message) (s : State) : State :=
  {| chats := chats s; currentChat := currentChat s; messages := v;
     currentMessage := currentMessage s; loading := loading s;
     sidebarOpen := sidebarOpen s |}.
Definition setCurrentMessage (v : jsstring) (s : State) : State :=
  {| chats := chats s; currentChat := currentChat s; messages := messages s;
     currentMessage := v; loading := loading s;
     sidebarOpen := sidebarOpen s |}.
Definition setLoading (v : bool) (s : State) : State :=
  {| chats := chats s; currentChat := currentChat s; messages := messages s;
     currentMessage := currentMessage s; loading := v;
     sidebarOpen := sidebarOpen s |}.
Definition setSidebarOpen (v : bool) (s : State) : State :=
  {| chats := chats s; currentChat := currentChat s; messages := messages s;
     currentMessage := currentMessage s; loading := loading s;
     sidebarOpen := v |}.

(** [setMessages(prev => [...prev, m])] *)
Definition appendMessage (m : Message) (s : State) : State :=
  setMessages (messages s ++ [m]) s.

(** One reading of the clock: [Date.now()] and
    [new Date().toISOString()]. *)
Record Clock : Type := { now : Z; isoString : jsstring }.

(** [loadChats] after [getChats] has settled; [captured] is the
    [currentChat] of the render that started it. *)
Definition loadChats_settle (captured : option Chat)
           (r : settled (list Chat)) (s : State) : State :=
  match r with
  | Fulfilled chatList =>
      let s1 := setChats chatList s in
      match chatList, captured with
      | first :: _, None => setCurrentChat (Some first) s1
      | _, _ => s1
      end
  | Rejected _ => s
  end.

(** [loadMessages] after [getMessages] has settled. *)
Definition loadMessages_settle (r : settled (list Message)) (s : State)
  : State :=
  match r with
  | Fulfilled messageList => setMessages messageList s
  | Rejected _ => s
  end.

(** [createNewChat] up to its [await]: the title it asks for. *)
Definition createNewChat_title (s : State) : jsstring :=
  lit "Chat " ++ toString (Z.of_nat (length (chats s) + 1)).

(** [createNewChat] after [createChat] has settled; [captured] is the
    [chats] of the render that started it. *)
Definition createNewChat_settle (captured : list Chat) (r : settled Chat)
           (s : State) : State :=
  match r with
  | Fulfilled newChat =>
      setMessages []
        (setCurrentChat (Some newChat) (setChats (newChat :: captured) s))
  | Rejected _ => s
  end.

Definition switchChat (chat : Chat) (s : State) : State :=
  setMessages [] (setCurrentChat (Some chat) s).

(** What [handleSubmit] leaves pending at its [await]: the chat its
    closure holds and the question it sent. *)
Record Submission : Type := { sub_chat : Chat; sub_question : jsstring }.

Definition userMessage (clk : Clock) (text : jsstring) : Message :=
  {| id := toString (now clk);
     role := user;
     content := text;
     sources := [];
     created_at := isoString clk |}.

Definition assistantMessage (clk : Clock) (response : QueryResponse) : Message :=
  {| id := message_id response;
     role := assistant;
     content := answer response;
     sources := response_sources response;
     created_at := isoString clk |}.

Definition errorMessage (clk : Clock) (err : thrown) : Message :=
  {| id := toString (now clk + 1);
     role := assistant;
     content := lit "Sorry, I encountered an error: "
                  ++ messageOr (lit "Unknown error") err;
     sources := [];
     created_at := isoString clk |}.

(** [handleSubmit] up to its [await]. *)
Definition handleSubmit (clk : Clock) (s : State) : State * option Submission :=
  match currentChat s with
  | None => (s, None)
  | Some chat =>
      if negb (truthy (trim (currentMessage s))) || loading s then (s, None)
      else
        (setLoading true
           (setCurrentMessage []
              (appendMessage (userMessage clk (currentMessage s)) s)),
         Some {| sub_chat := chat; sub_question := currentMessage s |})
  end.

(** [c => c.id !== currentChat.id] *)
Definition otherThan (chat c : Chat) : bool :=
  negb (str_eqb (chat_id c) (chat_id chat)).

(** [handleSubmit] after [queryRAG] has settled: the rest of [try], the
    [catch] and the [finally]; [chat] is the [currentChat] the closure
    holds. *)
Definition handleSubmit_settle (clk : Clock) (chat : Chat)
           (r : settled QueryResponse) (s : State) : State :=
  match r with
  | Fulfilled response =>
      let s1 := appendMessage (assistantMessage clk response) s in
      let s2 := setChats (chat :: filter (otherThan chat) (chats s1)) s1 in
      setLoading false s2
  | Rejected err =>
      setLoading false (appendMessage (errorMessage clk err) s)
  end.

(** A whole turn with nothing else happening during the [await]. *)
Definition submitTurn (send : Request -> settled (Response QueryResponse))
           (clk clk' : Clock) (s : State) : State :=
  match handleSubmit clk s with
  | (s1, None) => s1
  | (s1, Some sub) =>
      handleSubmit_settle clk' (sub_chat sub)
        (queryRAG send (chat_id (sub_chat sub)) (sub_question sub)) s1
  end.

(** Everything the user and the network can do to the chat view. *)
Inductive Event : Type :=
| TypeMessage (v : jsstring)
| OpenSidebar (v : bool)
| ClickChat (chat : Chat)
| ChatsSettled (captured : option Chat) (r : settled (list Chat))
| MessagesSettled (r : settled (list Message))
| NewChatSettled (captured : list Chat) (r : settled Chat)
| SubmitForm (clk : Clock)
| QuerySettled (clk : Clock) (chat : Chat) (r : settled QueryResponse).

Definition step (e : Event) (s : State) : State :=
  match e with
  | TypeMessage v => setCurrentMessage v s
  | OpenSidebar v => setSidebarOpen v s
  | ClickChat chat => switchChat chat s
  | ChatsSettled captured r => loadChats_settle captured r s
  | MessagesSettled r => loadMessages_settle r s
  | NewChatSettled captured r => createNewChat_settle captured r s
  | SubmitForm clk => fst (handleSubmit clk s)
  | QuerySettled clk chat r => handleSubmit_settle clk chat r s
  end.

Definition run (es : list Event) : State :=
  fold_left (fun s e => step e s) es init.

(** A user message carries no sources. *)
Definition userWithoutSources (m : Message) : Prop :=
  role m = user -> sources m = [].

(** The messages the server hands over in an event. *)
Definition fetched (e : Event) : list Message :=
  match e with
  | MessagesSettled (Fulfilled l) => l
  | _ => []
  end.

(** Create chat [A], then chat [B], open [A], type [q] and send it;
    the query is answered with [resp]. *)
Definition scenarioAB (A B : Chat) (q : jsstring) (resp : QueryResponse)
           (clk clk' : Clock) : State :=
  let s1 := createNewChat_settle (chats init) (Fulfilled A) init in
  let s2 := createNewChat_settle (chats s1) (Fulfilled B) s1 in
  let s3 := switchChat A s2 in
  let s4 := setCurrentMessage q s3 in
  match handleSubmit clk s4 with
  | (s5, None) => s5
  | (s5, Some sub) =>
      handleSubmit_settle clk' (sub_chat sub) (Fulfilled resp) s5
  end.

(** The [disabled] attribute of the send button. *)
Definition sendDisabled (s : State) : bool :=
  negb (truthy (trim (currentMessage s))) || loading s.

(** [onKeyPress] of the message box: Enter without Shift submits. *)
Definition onKeyPress (clk : Clock) (key : jsstring) (shiftKey : bool)
           (s : State) : State * option Submission :=
  if str_eqb key (lit "Enter") && negb shiftKey then handleSubmit clk s
  else (s, None).

(** [currentChat?.id === chat.id], the highlight of a sidebar entry. *)
Definition isActive (s : State) (chat : Chat) : bool :=
  match currentChat s with
  | Some c => str_eqb (chat_id c) (chat_id chat)
  | None => false
  end.

(** The events that end a turn. *)
Definition settlesQuery (e : Event) : bool :=
  match e with
  | QuerySettled _ _ _ => true
  | _ => false
  end.

Definition after (es : list Event) (s : State) : State :=
  fold_left (fun s e => step e s) es s.

(** The order the design document asks of a chat list (section 4.5),
    descending by latest activity: the ids of the chats, each once, the one
    with the latest activity first.  [activity] holds the id of the chat of
    every creation and every answered question, latest first. *)
Fixpoint descendingRecency (activity : list jsstring) : list jsstring :=
  match activity with
  | [] => []
  | i :: older =>
      i :: filter (fun j => negb (str_eqb j i)) (descendingRecency older)
  end.

(** What moves a chat up: its creation, or an answered question in it. *)
Inductive Activity : Type :=
| Created (newChat : Chat)
| Answered (clk : Clock) (chat : Chat) (response : QueryResponse).

Definition activityId (a : Activity) : jsstring :=
  match a with
  | Created newChat => chat_id newChat
  | Answered _ chat _ => chat_id chat
  end.

(** An activity whose handler meets, when its request settles, the list
    its render had: nothing changed the list during the wait. *)
Definition undisturbed (a : Activity) (s : State) : State :=
  match a with
  | Created newChat => createNewChat_settle (chats s) (Fulfilled newChat) s
  | Answered clk chat response =>
      handleSubmit_settle clk chat (Fulfilled response) s
  end.

(** The view after a history of undisturbed activities, latest first. *)
Definition replay (history : list Activity) : State :=
  fold_right undisturbed init history.

(** The server gives every created chat an id not seen before. *)
Fixpoint freshCreations (history : list Activity) : Prop :=
  match history with
  | [] => True
  | Created newChat :: older =>
      ~ In (chat_id newChat) (map activityId older) /\ freshCreations older
  | Answered _ _ _ :: older => freshCreations older
  end.

(** "New Chat" clicked twice before either [createChat] settles: both
    handlers hold the [chats] of the same render. *)
Definition twoCreationsFromOneRender (A B : Chat) (s : State) : State :=
  createNewChat_settle (chats s) (Fulfilled B)
    (createNewChat_settle (chats s) (Fulfilled A) s).

(** "New Chat" clicked while a question in [A] waits for its answer, and
    the answer arrives before the new chat does. *)
Definition creationAcrossAnAnswer (clk : Clock) (A : Chat)
           (response : QueryResponse) (C : Chat) (s : State) : State :=
  createNewChat_settle (chats s) (Fulfilled C)
    (handleSubmit_settle clk A (Fulfilled response) s).

End ProjectChatInterface.

(** ** The Retrieval Engine of the design document

    The engine runs in the Python back end ([rag_model.py]); the front end
    only sees its results through [queryRAG]. *)

Module Retrieval.

Section Engine.
(** Provider-defined: the embedding space, the embedding of a text and
    the cosine similarity with its order on scores. *)
Variables vector score : Type.
Variable embed : jsstring -> vector.
Variable cosine : vector -> vector -> score.
Variable score_leb : score -> score -> bool.

(** Modelled from the spec: the Chunk of section 3 (the chunk store is
    kept by the back end): id, owning project, source URL, text and
    embedding. *)
Record Chunk : Type := {
  chunk_id : jsstring;
  chunk_project_id : jsstring;
  chunk_source_url : jsstring;
  chunk_text : jsstring;
  chunk_embedding : vector
}.

(** The chunks of an index, in insertion order. *)
Definition VectorIndex := list Chunk.

Definition Scored : Type := (Chunk * score)%type.

(** Modelled from the spec: the back end's similarity computation is not
    among the front-end sources; section 4.3 has the engine compute the
    similarity of the embedded query against every chunk embedding in
    the index. *)
Definition scoreAll (index : VectorIndex) (query_text : jsstring)
  : list Scored :=
  map (fun c => (c, cosine (embed query_text) (chunk_embedding c))) index.

(** Modelled from the spec: the back end's ranking is not among the
    front-end sources; section 4.3 orders by descending score, ties
    broken by original chunk insertion order (stable).  An entry is put
    in front of the first entry that does not score higher. *)
Fixpoint place (x : Scored) (ranked : list Scored) : list Scored :=
  match ranked with
  | [] => [x]
  | y :: rest =>
      if score_leb (snd y) (snd x) then x :: ranked
      else y :: place x rest
  end.

(** Modelled from the spec: see [place]; entries are placed from the
    last inserted to the first. *)
Definition rank (l : list Scored) : list Scored :=
  fold_right place [] l.

(** Modelled from the spec: [retrieve] of section 4.3, absent from the
    front-end sources: the top [k] of the ranking; no chunks, no
    results. *)
Definition retrieve (index : VectorIndex) (query_text : jsstring) (k : nat)
  : list Scored :=
  firstn k (rank (scoreAll index query_text)).

(** Entries scoring the same as [s]. *)
Definition tied (s : score) (x : Scored) : bool :=
  score_leb s (snd x) && score_leb (snd x) s.

(** Scores never increase along the sequence. *)
Definition nonIncreasing (l : list Scored) : Prop :=
  StronglySorted (fun a b => score_leb (snd b) (snd a) = true) l.
End Engine.

End Retrieval.

(** ** components/ProjectList.tsx *)

Module ProjectList.
Import Api.

Record State : Type := {
  projects : list Project;
  loading : bool;
  error : option jsstring
}.

(** The [useState] initial values. *)
Definition init : State :=
  {| projects := []; loading := true; error := None |}.

Definition setProjects (v : list Project) (s : State) : State :=
  {| projects := v; loading := loading s; error := error s |}.
Definition setLoading (v : bool) (s : State) : State :=
  {| projects := projects s; loading := v; error := error s |}.
Definition setError (v : option jsstring) (s : State) : State :=
  {| projects := projects s; loading := loading s; error := v |}.

(** [loadProjects] up to its [await]. *)
Definition loadProjects (s : State) : State := setLoading true s.

(** [loadProjects] after [getProjects] has settled. *)
Definition loadProjects_settle (r : settled (list Project)) (s : State)
  : State :=
  match r with
  | Fulfilled projectList => setLoading false (setProjects projectList s)
  | Rejected err =>
      setLoading false
        (setError (Some (messageOr (lit "Failed to load projects") err)) s)
  end.

(** [array.slice(0, n)] *)
Definition slice0 {A : Type} (n : nat) (l : list A) : list A := firstn n l.

(** [array.map(f)] for an [f] that may throw: the first throw ends it. *)
Fixpoint mapOrThrow {A B : Type} (f : A -> option B) (l : list A)
  : option (list B) :=
  match l with
  | [] => Some []
  | x :: r =>
      match f x with
      | None => None
      | Some y =>
          match mapOrThrow f r with
          | None => None
          | Some ys => Some (y :: ys)
          end
      end
  end.

(** The count of the "+n more" line of a card, when it is rendered. *)
Definition moreSources (p : Project) : option nat :=
  if Nat.ltb 3 (length (project_urls p))
  then Some (length (project_urls p) - 3)
  else None.

(** What a project card shows, but for the creation date, whose text
    depends on the locale. *)
Record Card : Type := {
  card_name : jsstring;
  card_description : option jsstring;
  card_source_count : nat;
  card_hosts : list jsstring;
  card_more : option nat
}.

(** What the dashboard shows. *)
Inductive Screen : Type :=
| Spinner
| Dashboard (banner : option jsstring) (cards : list Card).

(** [value && (...)] for an optional string: rendered when it is there
    and not empty. *)
Definition whenTruthy (v : option jsstring) : option jsstring :=
  match v with
  | Some m => if truthy m then Some m else None
  | None => None
  end.

Section Render.
(** [new URL(url).hostname] of the platform; [None] when the constructor
    throws. *)
Variable hostname : jsstring -> option jsstring.

(** A card; [None] when rendering it throws. *)
Definition card (p : Project) : option Card :=
  match mapOrThrow hostname (slice0 3 (project_urls p)) with
  | None => None
  | Some hosts =>
      Some {| card_name := project_name p;
              card_description := whenTruthy (project_description p);
              card_source_count := length (project_urls p);
              card_hosts := hosts;
              card_more := moreSources p |}
  end.

(** The component's output; [None] when rendering throws. *)
Definition render (s : State) : option Screen :=
  if loading s then Some Spinner
  else
    match mapOrThrow card (projects s) with
    | None => None
    | Some cards => Some (Dashboard (whenTruthy (error s)) cards)
    end.
End Render.

End ProjectList.

(** ** App.tsx *)

Module App.
Import Api.

Inductive AppStage : Type := projects | create_project | chat.

Record AppState : Type := {
  stage : AppStage;
  selectedProject : option Project
}.

Definition init : AppState :=
  {| stage := projects; selectedProject := None |}.

Definition handleCreateProject (_ : AppState) : AppState :=
  {| stage := create_project; selectedProject := None |}.

Definition handleProjectCreated (_ : AppState) : AppState :=
  {| stage := projects; selectedProject := None |}.

Definition handleSelectProject (project : Project) (_ : AppState) : AppState :=
  {| stage := chat; selectedProject := Some project |}.

Definition handleBackToProjects (_ : AppState) : AppState :=
  {| stage := projects; selectedProject := None |}.

Definition handleCancelCreate (_ : AppState) : AppState :=
  {| stage := projects; selectedProject := None |}.

(** The component a conditional of the [return] mounts. *)
Inductive View : Type :=
| ProjectListView
| CreateProjectView
| ProjectChatInterfaceView (project : Project).

(** The three conditionals of the [return], in order. *)
Definition render (s : AppState) : list View :=
  (match stage s with projects => [ProjectListView] | _ => [] end)
  ++ (match stage s with create_project => [CreateProjectView] | _ => [] end)
  ++ (match stage s, selectedProject s with
      | chat, Some project => [ProjectChatInterfaceView project]
      | _, _ => []
      end).

(** The callbacks the mounted components can invoke. *)
Inductive Event : Type :=
| OnCreateProject
| OnProjectCreated
| OnSelectProject (project : Project)
| OnBackToProjects
| OnCancel.

Definition step (e : Event) (s : AppState) : AppState :=
  match e with
  | OnCreateProject => handleCreateProject s
  | OnProjectCreated => handleProjectCreated s
  | OnSelectProject project => handleSelectProject project s
  | OnBackToProjects => handleBackToProjects s
  | OnCancel => handleCancelCreate s
  end.

Definition run (es : list Event) : AppState :=
  fold_left (fun s e => step e s) es init.

(** The callback of the create-project form as seen by the application:
    the effects of a settled creation, passed on. *)
Definition afterCreation (effects : list CreateProject.Effect) (s : AppState)
  : AppState :=
  fold_left
    (fun s e =>
       match e with
       | CreateProject.OnProjectCreated => step OnProjectCreated s
       | CreateProject.CallCreateProject _ _ _ => s
       end) effects s.

End App.

(** ** The Query Orchestrator and the message store of the design document

    Both run in the Python back end ([backend.py]); the front end reaches
    them through [queryRAG]. *)

Module QueryOrchestrator.
Import Api.

(** Modelled from the spec: the error taxonomy of section 7; the back end
    is not among the front-end sources. *)
Inductive Failure : Type :=
| ValidationError
| NotFoundError
| IngestionError
| IndexUnavailableError
| ProviderError
| PersistenceError.

(** Modelled from the spec: the Chat/Message Store of sections 3 and 4.5,
    kept by the back end: the chats, and the messages in creation order,
    each with the id of its owning chat. *)
Record Store : Type := {
  stored_chats : list Chat;
  stored_messages : list (jsstring * Message)
}.

Section Orchestrator.
(** Left open by the design document: how the store names and dates a new
    message, what the retrieval and generation stages (with their retry)
    produce for a question, and how a failure is described to the user. *)
Variable newId : Store -> jsstring.
Variable timestamp : Store -> jsstring.
Variable answerFor :
  Store -> jsstring -> jsstring -> Failure + (jsstring * list jsstring).
Variable describe : Failure -> jsstring.

Definition chatExists (store : Store) (chatId : jsstring) : bool :=
  existsb (fun c => str_eqb (chat_id c) chatId) (stored_chats store).

Definition bump (t chatId : jsstring) (c : Chat) : Chat :=
  if str_eqb (chat_id c) chatId then
    {| chat_id := chat_id c; chat_project_id := chat_project_id c;
       chat_title := chat_title c; chat_created_at := chat_created_at c;
       chat_updated_at := t |}
  else c.

(** Modelled from the spec: [appendMessage] of section 4.5, absent from the
    front-end sources: inserts the message and bumps the chat's
    [updated_at] to the message's timestamp; fails with [NotFoundError] on
    an unknown chat id. *)
Definition appendMessage (store : Store) (chatId : jsstring) (r : Role)
           (text : jsstring) (srcs : list jsstring)
  : Failure + (Store * Message) :=
  if chatExists store chatId then
    let m := {| id := newId store; role := r; content := text;
                sources := srcs; created_at := timestamp store |} in
    inr ({| stored_chats := map (bump (timestamp store) chatId)
                                (stored_chats store);
            stored_messages := stored_messages store ++ [(chatId, m)] |},
         m)
  else inl NotFoundError.

(** Modelled from the spec: the query operation of section 4.6, absent
    from the front-end sources.  RECEIVED: the chat is validated and the
    user's message persisted; RETRIEVING and GENERATING: [answerFor];
    PERSISTING: the assistant's message is appended, or, on unrecoverable
    failure, an assistant message with the error's description and no
    sources; COMPLETE: answer, sources and id of the message just
    persisted. *)
Definition query (store : Store) (chatId question : jsstring)
  : Store * (Failure + QueryResponse) :=
  match appendMessage store chatId user question [] with
  | inl e => (store, inl e)
  | inr (store1, _) =>
      let reply :=
        match answerFor store1 chatId question with
        | inr (text, srcs) => (text, srcs)
        | inl f => (describe f, [])
        end in
      match appendMessage store1 chatId assistant (fst reply) (snd reply) with
      | inl e => (store1, inl e)
      | inr (store2, m) =>
          (store2,
           inr {| answer := fst reply;
                  response_sources := snd reply;
                  message_id := id m |})
      end
  end.

(** The string field [key] of a request body. *)
Fixpoint stringField (key : string) (b : list (string * Field))
  : option jsstring :=
  match b with
  | [] => None
  | (k, FString v) :: rest =>
      if String.eqb k key then Some v else stringField key rest
  | (k, FStrings _) :: rest =>
      if String.eqb k key then None else stringField key rest
  end.

(** Modelled from the spec: the binding of the query operation to
    "POST /query" (section 6 and the README's endpoint list), absent from
    the front-end sources.  A failure reaches the client as a rejected
    request carrying its description; [None] for a request that is not a
    query. *)
Definition serveQuery (store : Store) (req : Request)
  : option (Store * settled (Response QueryResponse)) :=
  match method req, str_eqb (url req) (lit "/query"),
        stringField "chat_id" (body req),
        stringField "question" (body req) with
  | POST, true, Some chatId, Some question =>
      match query store chatId question with
      | (store', inr r) => Some (store', Fulfilled {| data := r |})
      | (store', inl f) => Some (store', Rejected (ErrorInstance (describe f)))
      end
  | _, _, _, _ => None
  end.

(** The axios instance of a client talking to this server. *)
Definition transport (store : Store) (req : Request)
  : settled (Response QueryResponse) :=
  match serveQuery store req with
  | Some (_, r) => r
  | None => Rejected OtherValue
  end.

(** No stored message has the id the store gives out next. *)
Definition freshIds : Prop :=
  forall store,
    ~ In (newId store) (map (fun p => id (snd p)) (stored_messages store)).
End Orchestrator.

End QueryOrchestrator.

(** ** Sample data *)

Module Samples.
Import Api ProjectChatInterface.

Definition chatA : Chat :=
  {| chat_id := lit "a"; chat_project_id := lit "p"; chat_title := lit "Chat 1";
     chat_created_at := lit "2024-01-01T00:00:00Z";
     chat_updated_at := lit "2024-01-01T00:00:00Z" |}.

Definition chatB : Chat :=
  {| chat_id := lit "b"; chat_project_id := lit "p"; chat_title := lit "Chat 2";
     chat_created_at := lit "2024-01-01T00:01:00Z";
     chat_updated_at := lit "2024-01-01T00:01:00Z" |}.

Definition noon : Clock :=
  {| now := 1704110400000; isoString := lit "2024-01-01T12:00:00.000Z" |}.

Definition asking (q : string) : State :=
  setCurrentMessage (lit q) (switchChat chatA (setChats [chatB; chatA] init)).

Definition greeting : QueryResponse :=
  {| answer := lit "hi"; response_sources := []; message_id := lit "m1" |}.

(** A two-dimensional embedding space with integer coordinates: a text
    starting with "a" lies on the first axis, one starting with "b" on the
    second.  On such unit vectors the cosine is the dot product. *)
Definition axisEmbed (text : jsstring) : Z * Z :=
  match text with
  | c :: _ => if N.eqb c 97 then (1, 0) else if N.eqb c 98 then (0, 1) else (0, 0)
  | [] => (0, 0)
  end%Z.

Definition axisCosine (u v : Z * Z) : Z := (fst u * fst v + snd u * snd v)%Z.

Definition axisChunk (n : string) (text : string) : Retrieval.Chunk (Z * Z) :=
  {| Retrieval.chunk_id := lit n;
     Retrieval.chunk_project_id := lit "p";
     Retrieval.chunk_source_url := lit "https://a.example/docs";
     Retrieval.chunk_text := lit text;
     Retrieval.chunk_embedding := axisEmbed (lit text) |}.

Definition axisIndex : Retrieval.VectorIndex (Z * Z) :=
  [axisChunk "1" "bees"; axisChunk "2" "ants"; axisChunk "3" "apes";
   axisChunk "4" "bats"].

Definition chatC : Chat :=
  {| chat_id := lit "c"; chat_project_id := lit "p"; chat_title := lit "Chat 3";
     chat_created_at := lit "2024-01-01T00:02:00Z";
     chat_updated_at := lit "2024-01-01T00:02:00Z" |}.

(** A store with the two chats and no message yet; it gives a new
    message an id longer than every stored one and answers every question
    with "hi". *)
Definition emptyStore : QueryOrchestrator.Store :=
  {| QueryOrchestrator.stored_chats := [chatB; chatA];
     QueryOrchestrator.stored_messages := [] |}.

Definition longerId (store : QueryOrchestrator.Store) : jsstring :=
  lit "m"
    ++ concat (map (fun p => id (snd p))
                   (QueryOrchestrator.stored_messages store)).

Definition atNoon (_ : QueryOrchestrator.Store) : jsstring :=
  lit "2024-01-01T12:00:00.000Z".

Definition alwaysHi (_ : QueryOrchestrator.Store) (_ _ : jsstring)
  : QueryOrchestrator.Failure + (jsstring * list jsstring) :=
  inr (lit "hi", [lit "https://a.example/docs"]).

Definition failureText (_ : QueryOrchestrator.Failure) : jsstring :=
  lit "Something went wrong".

(** A stand-in for the platform's URL parser on the sample URLs: the text
    between "https://" and the next "/". *)
Fixpoint upToSlash (s : jsstring) : jsstring :=
  match s with
  | [] => []
  | c :: r => if N.eqb c 47 then [] else c :: upToSlash r
  end.

Definition httpsHost (u : jsstring) : option jsstring :=
  if str_eqb (firstn 8 u) (lit "https://")
  then Some (upToSlash (skipn 8 u))
  else None.

Definition docsProject (us : list jsstring) : Project :=
  {| project_id := lit "p"; project_name := lit "Docs";
     project_description := None; project_urls := us;
     project_created_at := lit "2024-01-01T00:00:00Z";
     project_updated_at := lit "2024-01-01T00:00:00Z" |}.

End Samples.

(** * Properties *)

(** ** Trimming *)

Module JSFacts.

Example trim_both_ends :
  trim (lit "  https://a.example/my docs ") = lit "https://a.example/my docs".
Proof. reflexivity. Qed.

Example trim_only_white_space : trim [0x20; 0x3000; 0x0A; 0xFEFF; 0x09]%N = [].
Proof. reflexivity. Qed.

Example toString_of_a_time : toString 1704110400000 = lit "1704110400000".
Proof. reflexivity. Qed.

Lemma truthy_false_iff (s : jsstring) : truthy s = false <-> s = [].
Proof. destruct s; simpl; split; congruence. Qed.

Lemma truthy_true_iff (s : jsstring) : truthy s = true <-> s <> [].
Proof. destruct s; simpl; split; congruence. Qed.

(** What is left of [trimStart] does not begin with white space. *)
Lemma trimStart_head (s : jsstring) c r :
  trimStart s = c :: r -> isWhiteSpace c = false.
Proof.
  induction s as [|x s IH]; simpl; [discriminate|].
  destruct (isWhiteSpace x) eqn:Hx; [exact IH|].
  intros H; injection H as -> _; exact Hx.
Qed.

Lemma trimStart_fixed c r :
  isWhiteSpace c = false -> trimStart (c :: r) = c :: r.
Proof. simpl; intros ->; reflexivity. Qed.

(** [trimEnd] keeps a first code unit that is not white space. *)
Lemma trimEnd_head c r :
  isWhiteSpace c = false -> exists r', trimEnd (c :: r) = c :: r'.
Proof.
  intros Hc; simpl; rewrite Hc.
  destruct (trimEnd r); eauto.
Qed.

Lemma trimEnd_idempotent (s : jsstring) : trimEnd (trimEnd s) = trimEnd s.
Proof.
  induction s as [|c s IH]; [reflexivity|].
  simpl. destruct (trimEnd s) as [|x r'] eqn:E.
  - destruct (isWhiteSpace c) eqn:Hc; simpl; [reflexivity|].
    rewrite Hc; reflexivity.
  - change (trimEnd (c :: x :: r')) with
      (match trimEnd (x :: r') with
       | [] => if isWhiteSpace c then [] else [c]
       | r2 => c :: r2
       end).
    rewrite IH; reflexivity.
Qed.

Lemma trim_idempotent (s : jsstring) : trim (trim s) = trim s.
Proof.
  unfold trim.
  destruct (trimStart s) as [|c r] eqn:E; [reflexivity|].
  pose proof (@trimStart_head s c r E) as Hc.
  destruct (@trimEnd_head c r Hc) as [r' Hr'].
  rewrite Hr', (@trimStart_fixed c r' Hc), <- Hr'.
  apply trimEnd_idempotent.
Qed.

Lemma trim_trimmed (s : jsstring) : trimmed (trim s).
Proof. apply trim_idempotent. Qed.

Lemma empty_trimmed : trimmed [].
Proof. reflexivity. Qed.

(** A trimmed string neither begins nor ends with white space. *)
Lemma trimEnd_last (s : jsstring) c :
  trimEnd s <> [] -> last (trimEnd s) c = c -> isWhiteSpace c = false.
Proof.
  induction s as [|x s IH]; simpl; [congruence|].
  destruct (trimEnd s) as [|y r'] eqn:E.
  - destruct (isWhiteSpace x) eqn:Hx; [congruence|].
    simpl; intros _ <-; exact Hx.
  - intros _ H. apply IH; [discriminate|]. exact H.
Qed.

Lemma trimmed_ends (s : jsstring) :
  trimmed s -> s <> [] ->
  (forall d, isWhiteSpace (hd d s) = false) /\
  (forall d, isWhiteSpace (last s d) = false).
Proof.
  unfold trimmed, trim; intros H Hne; split; intros d.
  - destruct (trimStart s) as [|c r] eqn:E.
    + simpl in H; congruence.
    + pose proof (@trimStart_head s c r E) as Hc.
      destruct (@trimEnd_head c r Hc) as [r' Hr'].
      rewrite <- H, Hr'; exact Hc.
  - assert (Hl : trimEnd (trimStart s) <> []) by (rewrite H; exact Hne).
    pose proof (@trimEnd_last (trimStart s) (last s d) Hl) as K.
    rewrite H in K. apply K.
    destruct s as [|a s]; [congruence|].
    clear. revert a; induction s as [|b s IH]; intros a; [reflexivity|].
    change (last (a :: b :: s) (last (a :: b :: s) d))
      with (last (b :: s) (last (a :: b :: s) d)).
    change (last (a :: b :: s) d) with (last (b :: s) d).
    apply IH.
Qed.

Lemma filter_from_Forall {A : Type} (P : A -> Prop) (p : A -> nat -> bool) l :
  Forall P l -> forall i, Forall P (filter_from p i l).
Proof.
  induction 1 as [|x l Hx _ IH]; intros i; simpl; [constructor|].
  destruct (p x i); [constructor|]; auto.
Qed.

Lemma Forall_filter {A : Type} (P : A -> Prop) (p : A -> bool) l :
  Forall P l -> Forall P (filter p l).
Proof.
  induction 1 as [|x l Hx _ IH]; simpl; [constructor|].
  destruct (p x); [constructor|]; auto.
Qed.

Lemma str_eqb_eq (a b : jsstring) : str_eqb a b = true <-> a = b.
Proof.
  revert b; induction a as [|x a IH]; destruct b as [|y b]; simpl;
    try (split; congruence).
  unfold code_eqb. rewrite andb_true_iff, N.eqb_eq, IH.
  split; [intros [-> ->]; reflexivity | intros H; injection H; auto].
Qed.

End JSFacts.

(** ** The create-project form *)

Module CreateProjectFacts.
Import Api CreateProject JSFacts.

Local Ltac name_cases s :=
  unfold handleSubmit, handleUseDefaults;
  destruct (truthy (trim (name s))) eqn:Hname; simpl negb; cbv iota.

(** The request of [handleSubmit], when it makes one. *)
Lemma handleSubmit_calls (s : State) n d us :
  In (CallCreateProject n d us) (snd (handleSubmit s)) ->
  truthy (trim (name s)) = true /\
  n = trim (name s) /\ d = trim (description s) /\
  (length (filter nonBlank (urls s)) =? 0)
    && negb (truthy (trim (currentUrl s))) = false /\
  us = (if truthy (trim (currentUrl s))
        then filter nonBlank (urls s) ++ [trim (currentUrl s)]
        else filter nonBlank (urls s)).
Proof.
  name_cases s; [|intros []].
  destruct ((length (filter nonBlank (urls s)) =? 0)
            && negb (truthy (trim (currentUrl s)))) eqn:Hurls;
    simpl; [intros []|].
  intros [H|[]]; injection H as <- <- <-; auto.
Qed.

Lemma handleUseDefaults_calls (s : State) n d us :
  In (CallCreateProject n d us) (snd (handleUseDefaults s)) ->
  truthy (trim (name s)) = true /\
  n = trim (name s) /\ d = trim (description s) /\ us = [].
Proof.
  name_cases s; [|intros []].
  simpl; intros [H|[]]; injection H as <- <- <-; auto.
Qed.


Lemma addURL_urls (s : State) :
  (trim (currentUrl s) = [] /\ addURL s = s) \/
  (trim (currentUrl s) <> [] /\
   urls (addURL s) = filter nonBlank (urls s) ++ [trim (currentUrl s)]).
Proof.
  unfold addURL. destruct (truthy (trim (currentUrl s))) eqn:E.
  - right; split; [apply truthy_true_iff, E | reflexivity].
  - left; split; [apply truthy_false_iff, E | reflexivity].
Qed.

Lemma addURL_stored_trimmed (s : State) :
  stored_trimmed s -> stored_trimmed (addURL s).
Proof.
  unfold stored_trimmed; intros H.
  destruct (addURL_urls s) as [[_ ->]|[_ ->]]; [exact H|].
  apply Forall_app; split.
  - apply Forall_filter, H.
  - constructor; [apply trim_trimmed | constructor].
Qed.

Lemma step_stored_trimmed (e : Event) (s : State) :
  stored_trimmed s -> stored_trimmed (step e s).
Proof.
  intros H; destruct e as [v|v|v| |i|k sh| | |r]; simpl; try exact H.
  - apply addURL_stored_trimmed, H.
  - apply filter_from_Forall, H.
  - unfold handleKeyPress.
    destruct (str_eqb k (lit "Enter") && negb sh);
      [apply addURL_stored_trimmed|]; exact H.
  - name_cases s; [|exact H].
    destruct ((length (filter nonBlank (urls s)) =? 0)
              && negb (truthy (trim (currentUrl s)))); exact H.
  - name_cases s; exact H.
  - destruct r; exact H.
Qed.

Lemma reachable_stored_trimmed (s : State) :
  reachable s -> stored_trimmed s.
Proof.
  induction 1 as [|e s _ IH].
  - repeat constructor.
  - apply step_stored_trimmed, IH.
Qed.

Lemma run_reachable (es : list Event) : reachable (run es).
Proof.
  unfold run. generalize init reach_init.
  induction es as [|e es IH]; intros s Hs; simpl; [exact Hs|].
  apply IH; constructor; exact Hs.
Qed.

Lemma valid_urls_nonempty_trimmed (l : list jsstring) :
  Forall trimmed l ->
  Forall (fun u => u <> [] /\ trimmed u) (filter nonBlank l).
Proof.
  induction 1 as [|u l Hu _ IH]; simpl; [constructor|].
  destruct (nonBlank u) eqn:E; [|exact IH].
  constructor; [|exact IH]. split; [|exact Hu].
  unfold nonBlank in E. rewrite Hu in E. apply truthy_true_iff, E.
Qed.

(** C2: when the name is blank after trimming, neither the form
    submission nor the defaults button issues a createProject request, and
    the state is the old one with only the error set, to the validation
    message "Project name is required"; a request that is issued carries
    the trimmed name, which is then non-empty. *)
Theorem blank_name_is_rejected (s : State) :
  (trim (name s) = [] ->
   handleSubmit s =
     (setError (Some (lit "Project name is required")) s, []) /\
   handleUseDefaults s =
     (setError (Some (lit "Project name is required")) s, [])) /\
  (forall n d us,
      In (CallCreateProject n d us)
         (snd (handleSubmit s) ++ snd (handleUseDefaults s)) ->
      trim (name s) <> [] /\ n = trim (name s)).
Proof.
  split.
  - intros H. unfold handleSubmit, handleUseDefaults.
    rewrite H; simpl; auto.
  - intros n d us Hin. apply in_app_or in Hin as [Hin|Hin].
    + apply handleSubmit_calls in Hin as (Hn & -> & _).
      split; [apply truthy_true_iff, Hn | reflexivity].
    + apply handleUseDefaults_calls in Hin as (Hn & -> & _).
      split; [apply truthy_true_iff, Hn | reflexivity].
Qed.

Lemma blank_name_is_rejected_witness :
  let s := setName (lit "  ") init in
  handleSubmit s =
    (setError (Some (lit "Project name is required")) s, []) /\
  handleUseDefaults s =
    (setError (Some (lit "Project name is required")) s, []).
Proof.
  intros s. apply (proj1 (blank_name_is_rejected s)). reflexivity.
Defined.


Lemma filter_nonBlank_nil (l : list jsstring) :
  filter nonBlank l = [] <-> (forall u, In u l -> trim u = []).
Proof.
  induction l as [|x l IH]; simpl.
  - split; [intros _ u [] | reflexivity].
  - unfold nonBlank at 1. destruct (truthy (trim x)) eqn:E.
    + split; [discriminate|]. intros H.
      apply truthy_true_iff in E. destruct E. apply H; auto.
    + apply truthy_false_iff in E. rewrite IH. split.
      * intros H u [<-|Hu]; auto.
      * intros H u Hu; apply H; auto.
Qed.

Lemma no_url_guard (s : State) :
  (length (filter nonBlank (urls s)) =? 0)
    && negb (truthy (trim (currentUrl s))) = true <->
  (forall u, In u (urls s ++ [currentUrl s]) -> trim u = []).
Proof.
  rewrite andb_true_iff, Nat.eqb_eq, length_zero_iff_nil, negb_true_iff,
    truthy_false_iff, filter_nonBlank_nil.
  split.
  - intros [H1 H2] u Hu. apply in_app_or in Hu as [Hu|[<-|[]]]; auto.
  - intros H; split.
    + intros u Hu; apply H, in_or_app; auto.
    + apply H, in_or_app; right; left; reflexivity.
Qed.

(** C8: the form submission issues a createProject request only when
    some URL on the form is not blank, and the request then carries a
    non-empty list; with no such URL it sends nothing and sets an error,
    "At least one URL is required" when the name passes its own check
    (which comes first and reports "Project name is required").  The
    defaults button, given a name, always calls createProject with the
    empty list. *)
Theorem creation_paths_differ_on_no_urls (s : State) :
  (forall n d us,
      In (CallCreateProject n d us) (snd (handleSubmit s)) ->
      someUrlPresent s /\ us <> []) /\
  (~ someUrlPresent s ->
   handleSubmit s =
     (setError
        (Some (if truthy (trim (name s))
               then lit "At least one URL is required"
               else lit "Project name is required")) s, [])) /\
  (trim (name s) <> [] ->
   snd (handleUseDefaults s) =
     [CallCreateProject (trim (name s)) (trim (description s)) []] /\
   map request_of (snd (handleUseDefaults s)) =
     [Some {| method := POST; url := lit "/projects";
              body := [("name", FString (trim (name s)));
                       ("description", FString (trim (description s)));
                       ("urls", FStrings [])]%string |}]).
Proof.
  split; [|split].
  - intros n d us Hin.
    apply handleSubmit_calls in Hin as (_ & _ & _ & Hg & ->).
    split.
    + destruct (truthy (trim (currentUrl s))) eqn:Hc.
      * exists (currentUrl s); split;
          [apply in_or_app; right; left; reflexivity
          | apply truthy_true_iff, Hc].
      * rewrite andb_true_r in Hg. apply Nat.eqb_neq in Hg.
        destruct (filter nonBlank (urls s)) as [|u l] eqn:E;
          [simpl in Hg; congruence|].
        assert (Hu : In u (filter nonBlank (urls s)))
          by (rewrite E; left; reflexivity).
        apply filter_In in Hu as [Hu Hnb].
        exists u; split; [apply in_or_app; auto|].
        apply truthy_true_iff, Hnb.
    + destruct (truthy (trim (currentUrl s))) eqn:Hc.
      * intros H; apply app_eq_nil in H as [_ H]; discriminate.
      * rewrite andb_true_r in Hg. apply Nat.eqb_neq in Hg.
        intros H; rewrite H in Hg; simpl in Hg; congruence.
  - intros Hno. unfold handleSubmit.
    destruct (truthy (trim (name s))); simpl negb; cbv iota; [|reflexivity].
    assert (Hg : (length (filter nonBlank (urls s)) =? 0)
                 && negb (truthy (trim (currentUrl s))) = true).
    { apply no_url_guard. intros u Hu.
      destruct (trim u) eqn:E; [reflexivity|].
      destruct Hno. exists u; split; [exact Hu | congruence]. }
    rewrite Hg; reflexivity.
  - intros Hn. unfold handleUseDefaults.
    apply truthy_true_iff in Hn; rewrite Hn; split; reflexivity.
Qed.

Lemma creation_paths_differ_on_no_urls_witness :
  let s := setName (lit "Docs") init in
  handleSubmit s =
    (setError (Some (lit "At least one URL is required")) s, []) /\
  snd (handleUseDefaults s) = [CallCreateProject (lit "Docs") [] []].
Proof.
  intros s.
  pose proof (creation_paths_differ_on_no_urls s) as (_ & H2 & H3).
  split.
  - apply H2.
    intros (u & [<-|[<-|[]]] & Hu); apply Hu; reflexivity.
  - apply (proj1 (H3 ltac:(discriminate))).
Defined.

(** C9: in every state the form can reach, each URL handed to
    createProject is non-empty and trimmed.  [addURL] stores nothing
    when the input is blank and otherwise the trimmed input after the
    non-blank stored entries, so stored entries stay trimmed; the
    placeholder and blank entries are filtered out on submission and the
    pending input is appended trimmed. *)
Theorem submitted_urls_trimmed (s : State) :
  reachable s ->
  forall n d us,
    In (CallCreateProject n d us)
       (snd (handleSubmit s) ++ snd (handleUseDefaults s)) ->
    Forall (fun u => u <> [] /\ trimmed u) us.
Proof.
  intros Hr n d us Hin. apply reachable_stored_trimmed in Hr.
  apply in_app_or in Hin as [Hin|Hin].
  - apply handleSubmit_calls in Hin as (_ & _ & _ & _ & ->).
    pose proof (valid_urls_nonempty_trimmed Hr) as Hv.
    destruct (truthy (trim (currentUrl s))) eqn:Hc; [|exact Hv].
    apply Forall_app; split; [exact Hv|].
    constructor; [|constructor].
    split; [apply truthy_true_iff, Hc | apply trim_trimmed].
  - apply handleUseDefaults_calls in Hin as (_ & _ & _ & ->).
    constructor.
Qed.

Lemma submitted_urls_trimmed_witness :
  Forall (fun u => u <> [] /\ trimmed u)
         [lit "https://a.example/docs"; lit "https://b.example"].
Proof.
  set (es := [TypeName (lit "Docs"); TypeUrl (lit "  https://a.example/docs ");
              ClickAdd; TypeUrl (lit " https://b.example  ")]).
  apply (submitted_urls_trimmed (run_reachable es)) with
    (n := lit "Docs") (d := []).
  vm_compute. left; reflexivity.
Defined.

(** C10: when the input box holds non-blank text, a request made by the
    form submission carries that text, trimmed, as the last URL, after
    the non-blank stored URLs, whether or not it was ever added; with a
    name the request is made. *)
Theorem pending_url_is_sent_last (s : State) :
  trim (currentUrl s) <> [] ->
  (forall n d us,
      In (CallCreateProject n d us) (snd (handleSubmit s)) ->
      us = filter nonBlank (urls s) ++ [trim (currentUrl s)] /\
      last us [] = trim (currentUrl s)) /\
  (trim (name s) <> [] ->
   snd (handleSubmit s) =
     [CallCreateProject (trim (name s)) (trim (description s))
        (filter nonBlank (urls s) ++ [trim (currentUrl s)])]).
Proof.
  intros Hc. apply truthy_true_iff in Hc. split.
  - intros n d us Hin.
    apply handleSubmit_calls in Hin as (_ & _ & _ & _ & ->).
    rewrite Hc; split; [reflexivity | apply last_last].
  - intros Hn. apply truthy_true_iff in Hn. unfold handleSubmit.
    rewrite Hn, Hc; simpl negb; rewrite andb_false_r; reflexivity.
Qed.

Lemma pending_url_is_sent_last_witness :
  let s := setCurrentUrl (lit " https://b.example ")
             (setUrls [lit "https://a.example"] (setName (lit "Docs") init)) in
  snd (handleSubmit s) =
    [CallCreateProject (lit "Docs") []
       [lit "https://a.example"; lit "https://b.example"]].
Proof.
  intros s.
  refine (proj2 (@pending_url_is_sent_last s _) _); discriminate.
Defined.

End CreateProjectFacts.

(** ** The chat view *)

Module ChatFacts.
Import Api ProjectChatInterface JSFacts Samples.

(** [handleSubmit] goes ahead exactly when a chat is open, the message
    is not blank and no turn is in flight. *)
Lemma handleSubmit_proceeds (clk : Clock) (s : State) chat :
  currentChat s = Some chat ->
  trim (currentMessage s) <> [] ->
  loading s = false ->
  handleSubmit clk s =
    (setLoading true
       (setCurrentMessage []
          (appendMessage (userMessage clk (currentMessage s)) s)),
     Some {| sub_chat := chat; sub_question := currentMessage s |}).
Proof.
  intros Hc Hm Hl. unfold handleSubmit.
  apply truthy_true_iff in Hm. rewrite Hc, Hm, Hl; reflexivity.
Qed.

Lemma handleSubmit_pending (clk : Clock) (s s1 : State) sub :
  handleSubmit clk s = (s1, Some sub) ->
  currentChat s = Some (sub_chat sub) /\
  sub_question sub = currentMessage s /\
  trim (currentMessage s) <> [] /\ loading s = false /\
  s1 = setLoading true
         (setCurrentMessage []
            (appendMessage (userMessage clk (currentMessage s)) s)).
Proof.
  unfold handleSubmit. destruct (currentChat s) as [chat|]; [|discriminate].
  destruct (truthy (trim (currentMessage s))) eqn:Hm; simpl; [|discriminate].
  destruct (loading s) eqn:Hl; [discriminate|].
  intros H; injection H as <- <-; simpl.
  repeat split; auto. apply truthy_true_iff, Hm.
Qed.

Lemma handleSubmit_messages (clk : Clock) (s : State) :
  messages (fst (handleSubmit clk s)) = messages s \/
  messages (fst (handleSubmit clk s)) =
    messages s ++ [userMessage clk (currentMessage s)].
Proof.
  unfold handleSubmit. destruct (currentChat s); [|auto].
  destruct (negb (truthy (trim (currentMessage s))) || loading s); auto.
Qed.

Lemma handleSubmit_idle_state (clk : Clock) (s : State) :
  snd (handleSubmit clk s) = None -> fst (handleSubmit clk s) = s.
Proof.
  unfold handleSubmit. destruct (currentChat s); [|reflexivity].
  destruct (negb (truthy (trim (currentMessage s))) || loading s);
    [reflexivity | discriminate].
Qed.

Lemma settle_messages (clk : Clock) chat r (s : State) :
  messages (handleSubmit_settle clk chat r s) =
    messages s ++ [match r with
                   | Fulfilled response => assistantMessage clk response
                   | Rejected err => errorMessage clk err
                   end].
Proof. destruct r; reflexivity. Qed.

(** C1: when [queryRAG] rejects, the rest of [handleSubmit] appends
    one message to the transcript: an assistant message with no sources
    whose content is "Sorry, I encountered an error: " followed by the
    error's message (or "Unknown error"); the chat list and the open chat
    are as before and the view leaves its loading state.  A whole turn
    whose query fails adds the user's message and then that one assistant
    message. *)
Theorem query_failure_is_an_assistant_message
        (clk' : Clock) (chat : Chat) (err : thrown) :
  (forall s,
      let s' := handleSubmit_settle clk' chat (Rejected err) s in
      messages s' = messages s ++ [errorMessage clk' err] /\
      chats s' = chats s /\ currentChat s' = currentChat s /\
      loading s' = false) /\
  (role (errorMessage clk' err) = assistant /\
   sources (errorMessage clk' err) = [] /\
   content (errorMessage clk' err) =
     lit "Sorry, I encountered an error: "
       ++ messageOr (lit "Unknown error") err) /\
  (forall send clk s,
      currentChat s = Some chat ->
      trim (currentMessage s) <> [] ->
      loading s = false ->
      send (queryRAG_request (chat_id chat) (currentMessage s))
        = Rejected err ->
      let s' := submitTurn send clk clk' s in
      messages s' =
        messages s ++ [userMessage clk (currentMessage s);
                       errorMessage clk' err] /\
      loading s' = false).
Proof.
  split; [|split].
  - intros s; simpl; auto.
  - auto.
  - intros send clk s Hc Hm Hl Hs. unfold submitTurn.
    rewrite (@handleSubmit_proceeds clk s chat Hc Hm Hl).
    unfold queryRAG; simpl sub_chat; simpl sub_question.
    rewrite Hs; simpl. rewrite <- app_assoc; auto.
Qed.


Lemma query_failure_is_an_assistant_message_witness :
  messages (submitTurn (fun _ => Rejected (ErrorInstance (lit "Network Error")))
                       noon noon (asking "hello")) =
    [userMessage noon (lit "hello");
     errorMessage noon (ErrorInstance (lit "Network Error"))].
Proof.
  refine (proj1 (proj2 (proj2 (query_failure_is_an_assistant_message
            noon chatA (ErrorInstance (lit "Network Error"))))
            (fun _ => Rejected (ErrorInstance (lit "Network Error")))
            noon (asking "hello") _ _ _ _));
    [reflexivity | discriminate | reflexivity | reflexivity].
Defined.

Lemma otherThan_self (chat : Chat) : otherThan chat chat = false.
Proof.
  unfold otherThan. apply negb_false_iff, str_eqb_eq; reflexivity.
Qed.

Lemma otherThan_distinct (chat c : Chat) :
  chat_id c <> chat_id chat -> otherThan chat c = true.
Proof.
  intros H. unfold otherThan. apply negb_true_iff.
  destruct (str_eqb (chat_id c) (chat_id chat)) eqn:E; [|reflexivity].
  apply str_eqb_eq in E; contradiction.
Qed.

Lemma otherThan_spec (chat c : Chat) :
  otherThan chat c = true <-> chat_id c <> chat_id chat.
Proof.
  split; [|apply otherThan_distinct].
  unfold otherThan. intros H E. apply negb_true_iff in H.
  apply str_eqb_eq in E. congruence.
Qed.

(** When nothing changes the list while a request waits, the handlers
    move to front: a created chat heads the list its handler saw, an
    answered chat [C] heads the chats with another id, which keep their
    order; creating [A], then [B], then asking in [A] leaves [A; B]. *)
Lemma undisturbed_handlers_move_to_front :
  (forall captured newChat s,
      chats (createNewChat_settle captured (Fulfilled newChat) s)
      = newChat :: captured) /\
  (forall clk C response s,
      chats (handleSubmit_settle clk C (Fulfilled response) s)
      = C :: filter (otherThan C) (chats s) /\
      (forall c, In c (filter (otherThan C) (chats s)) <->
                 In c (chats s) /\ chat_id c <> chat_id C)) /\
  (forall A B q response clk clk',
      chat_id A <> chat_id B -> trim q <> [] ->
      chats (scenarioAB A B q response clk clk') = [A; B]).
Proof.
  split; [|split].
  - reflexivity.
  - intros clk C response s; split; [reflexivity|].
    intros c. rewrite filter_In, otherThan_spec; reflexivity.
  - intros A B q response clk clk' Hid Hq. unfold scenarioAB.
    rewrite (@handleSubmit_proceeds clk _ A); simpl;
      [|reflexivity|exact Hq|reflexivity].
    rewrite otherThan_self, otherThan_distinct; [reflexivity|].
    intros E; apply Hid; symmetry; exact E.
Qed.

Lemma descendingRecency_incl (activity : list jsstring) i :
  In i (descendingRecency activity) -> In i activity.
Proof.
  induction activity as [|j older IH]; simpl; [auto|].
  intros [H|H]; [left; exact H|].
  apply filter_In in H as [H _]. right; apply IH, H.
Qed.

Lemma filter_absent (i : jsstring) (l : list jsstring) :
  ~ In i l -> filter (fun j => negb (str_eqb j i)) l = l.
Proof.
  induction l as [|j l IH]; simpl; intros H; [reflexivity|].
  destruct (str_eqb j i) eqn:E.
  - apply str_eqb_eq in E. destruct H; left; exact E.
  - simpl. rewrite IH; [reflexivity|]. intros Hin; apply H; right; exact Hin.
Qed.

Lemma ids_otherThan (C : Chat) (l : list Chat) :
  map chat_id (filter (otherThan C) l)
  = filter (fun j => negb (str_eqb j (chat_id C))) (map chat_id l).
Proof.
  induction l as [|x l IH]; simpl; [reflexivity|].
  unfold otherThan at 1. destruct (str_eqb (chat_id x) (chat_id C)); simpl;
    rewrite IH; reflexivity.
Qed.

(** Without the interference: as long as every handler meets the list its
    render had and created chats come with new ids, the list on screen is
    in descending order of latest activity. *)
Lemma undisturbed_list_is_by_recency (history : list Activity) :
  freshCreations history ->
  map chat_id (chats (replay history))
  = descendingRecency (map activityId history).
Proof.
  induction history as [|a older IH]; simpl; [reflexivity|].
  destruct a as [newChat|clk chat response]; simpl.
  - intros [Hfresh Holder]. rewrite (IH Holder), filter_absent; [reflexivity|].
    intros Hin. apply Hfresh, descendingRecency_incl, Hin.
  - intros Holder. rewrite ids_otherThan, (IH Holder). reflexivity.
Qed.

(** C3: the list on screen is not always in descending order of latest
    activity.  [createNewChat] puts the new chat in front of the list its
    render had, not of the list on screen.  Two chats created from one
    render leave only the second and the old chats: the first is gone.  A
    chat created across an answer puts the list back as it was before the
    answer: the answered chat loses its place.  Started from an empty list,
    creating [A] and [B] from one render shows [B] where the order by
    recency is [B; A]; with [B; A] on screen, creating [C] across an answer
    in [A] shows [C; B; A] where it is [C; A; B]. *)
Theorem stale_chat_list_breaks_recency_order :
  (forall A B s, chats (twoCreationsFromOneRender A B s) = B :: chats s) /\
  (forall clk A response C s,
      chats (creationAcrossAnAnswer clk A response C s) = C :: chats s) /\
  (chats (twoCreationsFromOneRender chatA chatB init) = [chatB] /\
   descendingRecency [chat_id chatB; chat_id chatA]
   = [chat_id chatB; chat_id chatA] /\
   map chat_id (chats (twoCreationsFromOneRender chatA chatB init))
   <> descendingRecency [chat_id chatB; chat_id chatA]) /\
  (chats (creationAcrossAnAnswer noon chatA greeting chatC
            (setChats [chatB; chatA] init))
   = [chatC; chatB; chatA] /\
   descendingRecency [chat_id chatC; chat_id chatA; chat_id chatB; chat_id chatA]
   = [chat_id chatC; chat_id chatA; chat_id chatB] /\
   map chat_id (chats (creationAcrossAnAnswer noon chatA greeting chatC
                         (setChats [chatB; chatA] init)))
   <> descendingRecency
        [chat_id chatC; chat_id chatA; chat_id chatB; chat_id chatA]).
Proof.
  split; [reflexivity|]. split; [reflexivity|].
  split; (split; [reflexivity|]; split; [reflexivity|]);
    vm_compute; discriminate.
Qed.

(** C4: loading a chat makes the transcript the fetched list as it
    came (a failed load leaves it as it is); a submission appends the
    user's message, with the typed text and no sources, after the messages
    there are; the settled query appends, after the messages there are by
    then, the assistant message made of the response's answer, sources and
    message id, or the error message; a whole turn leaves the old
    transcript, in its order, followed by the user's message and then the
    reply to the request it sent. *)
Theorem transcript_is_chronological :
  (forall messageList s,
      messages (loadMessages_settle (Fulfilled messageList) s)
      = messageList) /\
  (forall err s,
      messages (loadMessages_settle (Rejected err) s) = messages s) /\
  (forall clk s,
      snd (handleSubmit clk s) = None ->
      messages (fst (handleSubmit clk s)) = messages s) /\
  (forall clk s s1 sub,
      handleSubmit clk s = (s1, Some sub) ->
      messages s1
      = messages s ++ [{| id := toString (now clk);
                          role := user;
                          content := currentMessage s;
                          sources := [];
                          created_at := isoString clk |}]) /\
  (forall clk chat response s,
      messages (handleSubmit_settle clk chat (Fulfilled response) s)
      = messages s ++ [{| id := message_id response;
                          role := assistant;
                          content := answer response;
                          sources := response_sources response;
                          created_at := isoString clk |}]) /\
  (forall clk chat err s,
      messages (handleSubmit_settle clk chat (Rejected err) s)
      = messages s ++ [{| id := toString (now clk + 1);
                          role := assistant;
                          content :=
                            lit "Sorry, I encountered an error: "
                              ++ match err with
                                 | ErrorInstance m => m
                                 | OtherValue => lit "Unknown error"
                                 end;
                          sources := [];
                          created_at := isoString clk |}]) /\
  (forall send clk clk' s s1 sub,
      handleSubmit clk s = (s1, Some sub) ->
      messages (submitTurn send clk clk' s)
      = messages s
          ++ [{| id := toString (now clk);
                 role := user;
                 content := currentMessage s;
                 sources := [];
                 created_at := isoString clk |};
              match send (queryRAG_request (chat_id (sub_chat sub))
                                           (currentMessage s)) with
              | Fulfilled resp =>
                  {| id := message_id (data resp);
                     role := assistant;
                     content := answer (data resp);
                     sources := response_sources (data resp);
                     created_at := isoString clk' |}
              | Rejected err =>
                  {| id := toString (now clk' + 1);
                     role := assistant;
                     content :=
                       lit "Sorry, I encountered an error: "
                         ++ match err with
                            | ErrorInstance m => m
                            | OtherValue => lit "Unknown error"
                            end;
                     sources := [];
                     created_at := isoString clk' |}
              end]).
Proof.
  repeat match goal with |- _ /\ _ => split end.
  - reflexivity.
  - reflexivity.
  - intros clk s H. rewrite (handleSubmit_idle_state _ _ H). reflexivity.
  - intros clk s s1 sub H.
    apply handleSubmit_pending in H as (_ & _ & _ & _ & ->); reflexivity.
  - reflexivity.
  - intros clk chat [m|] s; reflexivity.
  - intros send clk clk' s s1 sub H. unfold submitTurn. rewrite H.
    apply handleSubmit_pending in H as (_ & Hq & _ & _ & ->).
    rewrite settle_messages. simpl messages. rewrite <- app_assoc.
    unfold queryRAG, returning_data. rewrite Hq.
    destruct (send _) as [resp|[m|]]; reflexivity.
Qed.

Lemma transcript_is_chronological_witness :
  messages (submitTurn (fun _ => Fulfilled {| data := greeting |})
                       noon noon (asking "hello"))
  = [{| id := lit "1704110400000"; role := user; content := lit "hello";
        sources := []; created_at := lit "2024-01-01T12:00:00.000Z" |};
     {| id := lit "m1"; role := assistant; content := lit "hi";
        sources := []; created_at := lit "2024-01-01T12:00:00.000Z" |}].
Proof.
  apply (proj2 (proj2 (proj2 (proj2 (proj2 (proj2 transcript_is_chronological)))))
           (fun _ => Fulfilled {| data := greeting |}) noon noon
           (asking "hello") (fst (handleSubmit noon (asking "hello")))
           {| sub_chat := chatA; sub_question := lit "hello" |}).
  reflexivity.
Defined.

Lemma step_userWithoutSources (e : Event) (s : State) :
  Forall userWithoutSources (fetched e) ->
  Forall userWithoutSources (messages s) ->
  Forall userWithoutSources (messages (step e s)).
Proof.
  intros He Hs.
  destruct e as [v|v|chat|captured r|r|captured r|clk|clk chat r]; simpl.
  - exact Hs.
  - exact Hs.
  - constructor.
  - destruct r as [[|first l]|]; [exact Hs| |exact Hs].
    destruct captured; exact Hs.
  - destruct r; [exact He | exact Hs].
  - destruct r; [constructor | exact Hs].
  - destruct (handleSubmit_messages clk s) as [->| ->]; [exact Hs|].
    apply Forall_app; split; [exact Hs|].
    constructor; [intros _; reflexivity | constructor].
  - rewrite settle_messages. apply Forall_app; split; [exact Hs|].
    constructor; [|constructor]. destruct r; discriminate.
Qed.

(** C7: the user message the view builds has no sources; so does every
    user message of the transcript after any run of events in which the
    fetched transcripts have none on user messages, and a message of that
    transcript with sources is an assistant message. *)
Theorem user_messages_have_no_sources :
  (forall clk text,
      role (userMessage clk text) = user /\
      sources (userMessage clk text) = []) /\
  (forall es,
      (forall e, In e es -> Forall userWithoutSources (fetched e)) ->
      forall m, In m (messages (run es)) ->
                (role m = user -> sources m = []) /\
                (sources m <> [] -> role m = assistant)).
Proof.
  split; [intros; split; reflexivity|].
  intros es Hes.
  assert (H : Forall userWithoutSources (messages (run es))).
  { unfold run.
    assert (H0 : Forall userWithoutSources (messages init)) by constructor.
    revert Hes H0. generalize init.
    induction es as [|e es IH]; intros s Hes Hs; simpl; [exact Hs|].
    apply IH.
    - intros e' He'; apply Hes; right; exact He'.
    - apply step_userWithoutSources; [apply Hes; left; reflexivity | exact Hs]. }
  intros m Hm. rewrite Forall_forall in H. specialize (H m Hm).
  split; [exact H|].
  destruct (role m) eqn:E; [|reflexivity].
  intros Hs; destruct Hs; apply H; exact E.
Qed.

Lemma user_messages_have_no_sources_witness :
  sources (userMessage noon (lit "hello")) = [].
Proof.
  refine (proj1 (proj2 user_messages_have_no_sources
            [ClickChat chatA; TypeMessage (lit "hello"); SubmitForm noon] _
            (userMessage noon (lit "hello")) _) _).
  - intros e [<-|[<-|[<-|[]]]]; constructor.
  - left; reflexivity.
  - reflexivity.
Defined.

End ChatFacts.

(** ** The query operation, from the client to the store *)

Module QueryFacts.
Import Api ProjectChatInterface QueryOrchestrator JSFacts.

Section Served.
Variable newId : Store -> jsstring.
Variable timestamp : Store -> jsstring.
Variable answerFor :
  Store -> jsstring -> jsstring -> Failure + (jsstring * list jsstring).
Variable describe : Failure -> jsstring.

Lemma chatExists_bumped (t c chatId : jsstring) (l : list Chat) msgs msgs' :
  chatExists {| stored_chats := map (bump t c) l; stored_messages := msgs' |}
             chatId
  = chatExists {| stored_chats := l; stored_messages := msgs |} chatId.
Proof.
  unfold chatExists; simpl.
  induction l as [|x l IH]; simpl; [reflexivity|].
  rewrite IH. f_equal. unfold bump.
  destruct (str_eqb (chat_id x) c); reflexivity.
Qed.

Lemma appendMessage_known (store : Store) chatId r text srcs :
  chatExists store chatId = true ->
  appendMessage newId timestamp store chatId r text srcs
  = inr ({| stored_chats := map (bump (timestamp store) chatId)
                                (stored_chats store);
            stored_messages :=
              stored_messages store
                ++ [(chatId, {| id := newId store; role := r; content := text;
                                sources := srcs;
                                created_at := timestamp store |})] |},
         {| id := newId store; role := r; content := text; sources := srcs;
            created_at := timestamp store |}).
Proof. intros H. unfold appendMessage. rewrite H. reflexivity. Qed.

Lemma serveQuery_of_client (store : Store) chatId question :
  serveQuery newId timestamp answerFor describe store
             (queryRAG_request chatId question)
  = match query newId timestamp answerFor describe store chatId question with
    | (store', inr r) => Some (store', Fulfilled {| data := r |})
    | (store', inl f) => Some (store', Rejected (ErrorInstance (describe f)))
    end.
Proof. reflexivity. Qed.

(** C6: [queryRAG] takes a chat id and a question and posts to "/query" a
    body of exactly the two fields [chat_id] and [question] holding them,
    and returns the data of the response, a [QueryResponse], which is its
    three fields [answer], [sources] and [message_id].  Served by the query
    operation for a chat the store knows, that request persists the user's
    message and then an assistant message, in that order and after the
    stored messages, and is answered with a response whose [message_id],
    [answer] and [sources] are the id, content and sources of that
    assistant message, the message the view then shows; when the store
    gives out new ids, no other stored message has that id.  For a chat the
    store does not know the request is rejected and nothing is stored. *)
Theorem query_returns_the_persisted_message :
  (forall chatId question,
      let req := queryRAG_request chatId question in
      method req = POST /\ url req = lit "/query" /\
      map fst (body req) = ["chat_id"; "question"]%string /\
      map snd (body req) = [FString chatId; FString question]) /\
  (forall (send : Request -> settled (Response QueryResponse))
          chatId question result,
      queryRAG send chatId question = Fulfilled result <->
      send (queryRAG_request chatId question)
        = Fulfilled {| data := result |}) /\
  (forall r r' : QueryResponse,
      answer r = answer r' -> response_sources r = response_sources r' ->
      message_id r = message_id r' -> r = r') /\
  (forall store chatId question,
      chatExists store chatId = true ->
      exists store' resp persisted,
        serveQuery newId timestamp answerFor describe store
                   (queryRAG_request chatId question)
        = Some (store', Fulfilled {| data := resp |}) /\
        queryRAG (transport newId timestamp answerFor describe store)
                 chatId question
        = Fulfilled resp /\
        stored_messages store'
        = stored_messages store
            ++ [(chatId, {| id := newId store; role := user;
                            content := question; sources := [];
                            created_at := timestamp store |});
                (chatId, persisted)] /\
        role persisted = assistant /\
        id persisted = message_id resp /\
        content persisted = answer resp /\
        sources persisted = response_sources resp /\
        (forall clk,
            id (assistantMessage clk resp) = id persisted /\
            role (assistantMessage clk resp) = role persisted /\
            content (assistantMessage clk resp) = content persisted /\
            sources (assistantMessage clk resp) = sources persisted) /\
        (freshIds newId ->
         forall p, In p (stored_messages store') ->
                   id (snd p) = message_id resp ->
                   p = (chatId, persisted))) /\
  (forall store chatId question,
      chatExists store chatId = false ->
      serveQuery newId timestamp answerFor describe store
                 (queryRAG_request chatId question)
      = Some (store, Rejected (ErrorInstance (describe NotFoundError)))).
Proof.
  repeat match goal with |- _ /\ _ => split end.
  - intros; simpl; auto.
  - intros send chatId question result. unfold queryRAG, returning_data.
    destruct (send _) as [[d]|e]; simpl; split; intros H;
      try discriminate; injection H as ->; reflexivity.
  - intros [a s m] [a' s' m']; simpl; intros -> -> ->; reflexivity.
  - intros store chatId question Hknown.
    unfold queryRAG, transport. rewrite serveQuery_of_client.
    unfold query. rewrite (@appendMessage_known store chatId _ _ _ Hknown).
    set (store1 := {| stored_chats := _; stored_messages := _ |}).
    assert (Hknown1 : chatExists store1 chatId = true).
    { unfold store1.
      rewrite (chatExists_bumped _ _ _ _ (stored_messages store)).
      destruct store; exact Hknown. }
    set (reply := match answerFor store1 chatId question with
                  | inr (text, srcs) => (text, srcs)
                  | inl f => (describe f, [])
                  end).
    rewrite (@appendMessage_known store1 chatId _ _ _ Hknown1).
    eexists; eexists; eexists.
    split; [reflexivity|]. split; [reflexivity|].
    split; [simpl; rewrite <- app_assoc; reflexivity|].
    repeat (split; [reflexivity|]).
    split; [intros clk; repeat split|].
    intros Hfresh p Hin Hid. simpl in Hin, Hid.
    rewrite <- app_assoc in Hin. simpl in Hin.
    specialize (Hfresh store1). unfold store1 in Hfresh at 2.
    simpl in Hfresh. rewrite map_app in Hfresh. simpl in Hfresh.
    apply in_app_or in Hin as [Hin|[<-|[<-|[]]]].
    + destruct Hfresh. apply in_or_app; left.
      rewrite <- Hid. apply (in_map (fun p => id (snd p))), Hin.
    + destruct Hfresh. apply in_or_app; right; left. exact Hid.
    + reflexivity.
  - intros store chatId question Hunknown.
    rewrite serveQuery_of_client. unfold query, appendMessage.
    rewrite Hunknown. reflexivity.
Qed.
End Served.

Lemma length_le_concat {A : Type} (x : list A) (l : list (list A)) :
  In x l -> length x <= length (concat l).
Proof.
  induction l as [|y l IH]; simpl; [intros []|].
  rewrite length_app. intros [->|H]; [lia|]. apply IH in H. lia.
Qed.

Lemma longerId_fresh : freshIds Samples.longerId.
Proof.
  intros store Hin. apply length_le_concat in Hin.
  unfold Samples.longerId in Hin. rewrite length_app in Hin. simpl in Hin. lia.
Qed.

Lemma query_returns_the_persisted_message_witness :
  exists store' persisted,
    serveQuery Samples.longerId Samples.atNoon Samples.alwaysHi
               Samples.failureText Samples.emptyStore
               (queryRAG_request (lit "a") (lit "hello"))
    = Some (store',
            Fulfilled {| data := {| answer := lit "hi";
                                    response_sources :=
                                      [lit "https://a.example/docs"];
                                    message_id := lit "mm" |} |}) /\
    stored_messages store'
    = [(lit "a", {| id := lit "m"; role := user; content := lit "hello";
                    sources := [];
                    created_at := lit "2024-01-01T12:00:00.000Z" |});
       (lit "a", persisted)] /\
    id persisted = lit "mm" /\
    forall p, In p (stored_messages store') -> id (snd p) = lit "mm" ->
              p = (lit "a", persisted).
Proof.
  destruct (proj1 (proj2 (proj2 (proj2
             (query_returns_the_persisted_message
                Samples.longerId Samples.atNoon Samples.alwaysHi
                Samples.failureText))))
             Samples.emptyStore (lit "a") (lit "hello") eq_refl)
    as (store' & resp & persisted & Hserve & _ & Hmsgs & _ & Hid & _ & _ & _
        & Huniq).
  assert (Hresp : resp = {| answer := lit "hi";
                            response_sources := [lit "https://a.example/docs"];
                            message_id := lit "mm" |}).
  { rewrite serveQuery_of_client in Hserve. vm_compute in Hserve.
    injection Hserve as _ <-. reflexivity. }
  subst resp. exists store', persisted.
  split; [exact Hserve|]. split; [exact Hmsgs|]. split; [exact Hid|].
  apply Huniq, longerId_fresh.
Defined.

End QueryFacts.

(** ** Retrieval *)

Module RetrievalFacts.
Import Retrieval.

Section Ranking.
Variables vector score : Type.
Variable embed : jsstring -> vector.
Variable cosine : vector -> vector -> score.
Variable score_leb : score -> score -> bool.

(** The order on scores is a total preorder. *)
Hypothesis score_leb_total :
  forall a b, score_leb a b = true \/ score_leb b a = true.
Hypothesis score_leb_trans :
  forall a b c,
    score_leb a b = true -> score_leb b c = true -> score_leb a c = true.

Abbreviation Entry := (Scored vector score).

Lemma place_perm (x : Entry) l : Permutation (place score_leb x l) (x :: l).
Proof.
  induction l as [|y l IH]; simpl; [reflexivity|].
  destruct (score_leb (snd y) (snd x)); [reflexivity|].
  rewrite IH. apply perm_swap.
Qed.

Lemma rank_perm (l : list Entry) : Permutation (rank score_leb l) l.
Proof.
  induction l as [|x l IH]; simpl; [reflexivity|].
  rewrite place_perm. constructor; exact IH.
Qed.

Lemma place_sorted (x : Entry) l :
  nonIncreasing score_leb l -> nonIncreasing score_leb (place score_leb x l).
Proof.
  unfold nonIncreasing.
  induction 1 as [|y l Hl IH Hy]; simpl; [repeat constructor|].
  destruct (score_leb (snd y) (snd x)) eqn:E.
  - constructor; [constructor; assumption|].
    constructor; [exact E|].
    rewrite Forall_forall in Hy |- *. intros z Hz.
    apply score_leb_trans with (snd y); [apply Hy, Hz | exact E].
  - constructor; [exact IH|].
    apply (Permutation_Forall (Permutation_sym (place_perm x l))).
    constructor; [|exact Hy].
    destruct (score_leb_total (snd x) (snd y)); [assumption|congruence].
Qed.

Lemma rank_sorted (l : list Entry) : nonIncreasing score_leb (rank score_leb l).
Proof.
  induction l as [|x l IH]; simpl; [constructor|].
  apply place_sorted, IH.
Qed.

Lemma sorted_split (l1 l2 : list Entry) :
  nonIncreasing score_leb (l1 ++ l2) ->
  nonIncreasing score_leb l1 /\
  (forall a b, In a l1 -> In b l2 -> score_leb (snd b) (snd a) = true).
Proof.
  unfold nonIncreasing. induction l1 as [|x l1 IH]; simpl; intros H.
  - split; [constructor | intros a b []].
  - inversion H as [|? ? Hs Hx]; subst.
    destruct (IH Hs) as [H1 H2]. apply Forall_app in Hx as [Hx1 Hx2].
    split; [constructor; assumption|].
    intros a b [<-|Ha] Hb; [|apply H2; assumption].
    rewrite Forall_forall in Hx2; apply Hx2, Hb.
Qed.

(** Placing an entry does not disturb the order among the entries of
    any one score. *)
Lemma place_tied (s : score) (x : Entry) l :
  filter (tied score_leb s) (place score_leb x l)
  = filter (tied score_leb s) (x :: l).
Proof.
  induction l as [|y l IH]; [reflexivity|].
  simpl place. destruct (score_leb (snd y) (snd x)) eqn:E; [reflexivity|].
  change (filter (tied score_leb s) (y :: place score_leb x l))
    with (if tied score_leb s y
          then y :: filter (tied score_leb s) (place score_leb x l)
          else filter (tied score_leb s) (place score_leb x l)).
  rewrite IH. simpl.
  destruct (tied score_leb s y) eqn:Ty; [|reflexivity].
  destruct (tied score_leb s x) eqn:Tx; [|reflexivity].
  unfold tied in Ty, Tx.
  apply andb_true_iff in Ty as [_ Ty], Tx as [Tx _].
  rewrite (@score_leb_trans _ _ _ Ty Tx) in E; discriminate.
Qed.

Lemma rank_stable (s : score) (l : list Entry) :
  filter (tied score_leb s) (rank score_leb l) = filter (tied score_leb s) l.
Proof.
  induction l as [|x l IH]; [reflexivity|].
  simpl rank. rewrite place_tied. simpl. rewrite IH. reflexivity.
Qed.

(** C5: [retrieve] returns entries with scores in non-increasing
    order; they are the top [k]: [min k n] of the [n] scored chunks of
    the index, none of the chunks left out scoring higher than one
    returned; among the entries of one score the returned ones are the
    first in insertion order, in that order; and an index with no
    chunks gives the empty sequence. *)
Theorem retrieve_ranks_top_k (index : VectorIndex vector)
        (query_text : jsstring) (k : nat) :
  let result := retrieve embed cosine score_leb index query_text k in
  nonIncreasing score_leb result /\
  (exists rest,
      Permutation (result ++ rest) (scoreAll embed cosine index query_text)
      /\ length result = Nat.min k (length index)
      /\ forall a b, In a result -> In b rest ->
                     score_leb (snd b) (snd a) = true) /\
  (forall s, exists later,
      filter (tied score_leb s) (scoreAll embed cosine index query_text)
      = filter (tied score_leb s) result ++ later) /\
  retrieve embed cosine score_leb [] query_text k = [].
Proof.
  intros result. unfold retrieve in result.
  set (scored := scoreAll embed cosine index query_text) in *.
  pose proof (rank_sorted scored) as Hs.
  pose proof (firstn_skipn k (rank score_leb scored)) as Hsplit.
  fold result in Hsplit. rewrite <- Hsplit in Hs.
  apply sorted_split in Hs as [Hs1 Hs2].
  split; [exact Hs1|]. split; [|split].
  - exists (skipn k (rank score_leb scored)). split; [|split].
    + rewrite Hsplit. apply rank_perm.
    + unfold result. rewrite length_firstn.
      rewrite (Permutation_length (rank_perm scored)).
      unfold scored, scoreAll. rewrite length_map. reflexivity.
    + exact Hs2.
  - intros s. exists (filter (tied score_leb s) (skipn k (rank score_leb scored))).
    rewrite <- filter_app, Hsplit. symmetry; apply rank_stable.
  - unfold retrieve; simpl. apply firstn_nil.
Qed.
End Ranking.

Lemma Zleb_total (a b : Z) : (a <=? b)%Z = true \/ (b <=? a)%Z = true.
Proof. rewrite !Z.leb_le; lia. Qed.

Lemma Zleb_trans (a b c : Z) :
  (a <=? b)%Z = true -> (b <=? c)%Z = true -> (a <=? c)%Z = true.
Proof. rewrite !Z.leb_le; lia. Qed.

Lemma retrieve_ranks_top_k_witness :
  map (fun x => (chunk_id (fst x), snd x))
      (retrieve Samples.axisEmbed Samples.axisCosine Z.leb
                Samples.axisIndex (lit "a") 3)
  = [(lit "2", 1%Z); (lit "3", 1%Z); (lit "1", 0%Z)] /\
  nonIncreasing Z.leb
    (retrieve Samples.axisEmbed Samples.axisCosine Z.leb
              Samples.axisIndex (lit "a") 3).
Proof.
  split; [reflexivity|].
  apply (@retrieve_ranks_top_k _ _ Samples.axisEmbed Samples.axisCosine
           Z.leb Zleb_total Zleb_trans Samples.axisIndex (lit "a") 3).
Defined.

End RetrievalFacts.


(** ** More on the create-project form *)

Module CreateProjectMore.
Import Api CreateProject JSFacts CreateProjectFacts.

Lemma nonBlank_trim (u : jsstring) : nonBlank (trim u) = nonBlank u.
Proof. unfold nonBlank. rewrite trim_idempotent. reflexivity. Qed.

Lemma filter_holds {A : Type} (f : A -> bool) (l : list A) :
  Forall (fun x => f x = true) (filter f l).
Proof.
  induction l as [|x l IH]; simpl; [constructor|].
  destruct (f x) eqn:E; [constructor; assumption | exact IH].
Qed.

Lemma filter_all {A : Type} (f : A -> bool) (l : list A) :
  Forall (fun x => f x = true) l -> filter f l = l.
Proof.
  induction 1 as [|x l Hx _ IH]; simpl; [reflexivity|].
  rewrite Hx, IH; reflexivity.
Qed.

(** Past the index to drop, the index filter keeps everything. *)
Lemma filter_from_past {A : Type} (t : nat) (l : list A) :
  forall k, t < k -> filter_from (fun _ i => negb (Nat.eqb i t)) k l = l.
Proof.
  induction l as [|x l IH]; intros k Hk; simpl; [reflexivity|].
  replace (Nat.eqb k t) with false by (symmetry; apply Nat.eqb_neq; lia).
  simpl. rewrite IH by lia. reflexivity.
Qed.

Lemma filter_from_drops {A : Type} (t : nat) (l : list A) :
  forall k, k <= t ->
    filter_from (fun _ i => negb (Nat.eqb i t)) k l
    = firstn (t - k) l ++ skipn (S (t - k)) l.
Proof.
  induction l as [|x l IH]; intros k Hk; simpl.
  - rewrite firstn_nil; reflexivity.
  - destruct (Nat.eqb k t) eqn:E; simpl.
    + apply Nat.eqb_eq in E; subst k. rewrite Nat.sub_diag; simpl.
      apply filter_from_past; lia.
    + apply Nat.eqb_neq in E.
      replace (t - k) with (S (t - S k)) by lia. simpl.
      rewrite IH by lia. reflexivity.
Qed.

Lemma step_placeholder_or_clean (e : Event) (s : State) :
  placeholder_or_clean s -> placeholder_or_clean (step e s).
Proof.
  assert (Hadd : placeholder_or_clean s -> placeholder_or_clean (addURL s)).
  { intros H. destruct (addURL_urls s) as [[_ ->]|[Hc Hu]]; [exact H|].
    right. rewrite Hu. apply Forall_app; split; [apply filter_holds|].
    constructor; [|constructor].
    rewrite nonBlank_trim. apply truthy_true_iff, Hc. }
  intros H; destruct e as [v|v|v| |i|k sh| | |r]; simpl; try exact H.
  - apply Hadd, H.
  - destruct H as [H|H].
    + unfold placeholder_or_clean, removeURL; simpl. rewrite H.
      destruct i; simpl; [right; constructor | left; reflexivity].
    + right. apply filter_from_Forall, H.
  - unfold handleKeyPress.
    destruct (str_eqb k (lit "Enter") && negb sh); [apply Hadd|]; exact H.
  - unfold handleSubmit. destruct (truthy (trim (name s))); simpl; [|exact H].
    destruct ((length (filter nonBlank (urls s)) =? 0)
              && negb (truthy (trim (currentUrl s)))); exact H.
  - unfold handleUseDefaults. destruct (truthy (trim (name s))); exact H.
  - destruct r; exact H.
Qed.

Lemma reachable_placeholder_or_clean (s : State) :
  reachable s -> placeholder_or_clean s.
Proof.
  induction 1 as [|e s _ IH]; [left; reflexivity|].
  apply step_placeholder_or_clean, IH.
Qed.

(** X1: in every state the form can reach, the remove button of the
    rendered entry at position [i] removes exactly that entry from the
    rendered list, although [removeURL] indexes the stored list. *)
Theorem remove_button_removes_its_entry (s : State) (i : nat) :
  reachable s -> i < length (displayed s) ->
  displayed (removeURL i s)
  = firstn i (displayed s) ++ skipn (S i) (displayed s).
Proof.
  intros Hr Hi. apply reachable_placeholder_or_clean in Hr as [H|H].
  - unfold displayed in Hi. rewrite H in Hi. simpl in Hi. lia.
  - unfold displayed, removeURL, filteri; simpl.
    rewrite (filter_all _ H).
    rewrite filter_all by (apply filter_from_Forall, H).
    rewrite filter_from_drops by lia. rewrite Nat.sub_0_r. reflexivity.
Qed.

Lemma remove_button_removes_its_entry_witness :
  displayed (removeURL 0
    (run [TypeUrl (lit "https://a.example"); ClickAdd;
          TypeUrl (lit " https://b.example"); ClickAdd]))
  = [lit "https://b.example"].
Proof.
  apply (@remove_button_removes_its_entry
           (run [TypeUrl (lit "https://a.example"); ClickAdd;
                 TypeUrl (lit " https://b.example"); ClickAdd]) 0).
  - apply run_reachable.
  - vm_compute. lia.
Defined.

(** X2: adding a non-blank input puts its trimmed text at the end of the
    rendered list and empties the input box; a blank input changes nothing;
    so adding twice in a row adds once. *)
Theorem add_appends_once (s : State) :
  (trim (currentUrl s) <> [] ->
   displayed (addURL s) = displayed s ++ [trim (currentUrl s)] /\
   currentUrl (addURL s) = []) /\
  (trim (currentUrl s) = [] -> addURL s = s) /\
  addURL (addURL s) = addURL s.
Proof.
  assert (Hblank : forall t, trim (currentUrl t) = [] -> addURL t = t).
  { intros t Ht. unfold addURL. rewrite Ht. reflexivity. }
  split; [|split].
  - intros Hc. destruct (addURL_urls s) as [[E _]|[_ Hu]]; [contradiction|].
    unfold displayed. rewrite Hu, filter_app.
    rewrite (filter_all _ (filter_holds nonBlank (urls s))). simpl.
    rewrite nonBlank_trim. unfold nonBlank at 2.
    apply truthy_true_iff in Hc. rewrite Hc. split; [reflexivity|].
    unfold addURL. rewrite Hc. reflexivity.
  - apply Hblank.
  - destruct (trim (currentUrl s)) eqn:E.
    + rewrite (Hblank s E). apply Hblank, E.
    + apply Hblank. unfold addURL. rewrite E. reflexivity.
Qed.

Lemma add_appends_once_witness :
  let s := setCurrentUrl (lit " https://b.example ")
             (setUrls [lit "https://a.example"] init) in
  displayed (addURL s) = [lit "https://a.example"; lit "https://b.example"].
Proof.
  intros s. refine (proj1 (proj1 (add_appends_once s) _)). discriminate.
Defined.

Lemma handleSubmit_guard (s : State) :
  snd (handleSubmit s) <> [] <->
  truthy (trim (name s)) = true /\
  (length (filter nonBlank (urls s)) =? 0)
    && negb (truthy (trim (currentUrl s))) = false.
Proof.
  unfold handleSubmit. destruct (truthy (trim (name s))); simpl.
  - destruct ((length (filter nonBlank (urls s)) =? 0)
              && negb (truthy (trim (currentUrl s)))); simpl;
      split; try tauto; try discriminate. intros [_ H]; discriminate.
  - split; [tauto | intros [H _]; discriminate].
Qed.

Lemma handleUseDefaults_guard (s : State) :
  snd (handleUseDefaults s) <> [] <-> truthy (trim (name s)) = true.
Proof.
  unfold handleUseDefaults. destruct (truthy (trim (name s))); simpl;
    split; try tauto; discriminate.
Qed.

Lemma trim_nil_of_nil (u : jsstring) : u = [] -> trim u = [].
Proof. intros ->; reflexivity. Qed.

(** X3: each button is enabled exactly when nothing is in flight and its
    handler would act: the submit and the defaults button when their
    handler issues a request, the add button when [addURL] changes the
    form.  So no click on an enabled button ends in a validation error. *)
Theorem enabled_buttons_act (s : State) :
  (submitDisabled s = false <->
   loading s = false /\ snd (handleSubmit s) <> []) /\
  (defaultDisabled s = false <->
   loading s = false /\ snd (handleUseDefaults s) <> []) /\
  (addDisabled s = false <-> loading s = false /\ addURL s <> s).
Proof.
  split; [|split].
  - rewrite handleSubmit_guard. unfold submitDisabled.
    destruct (loading s), (truthy (trim (name s))),
      ((length (filter nonBlank (urls s)) =? 0)
       && negb (truthy (trim (currentUrl s)))); simpl;
      intuition discriminate.
  - rewrite handleUseDefaults_guard. unfold defaultDisabled.
    destruct (loading s), (truthy (trim (name s))); simpl;
      intuition discriminate.
  - unfold addDisabled.
    assert (H : truthy (trim (currentUrl s)) = true <-> addURL s <> s).
    { split.
      - intros Ht E. apply truthy_true_iff in Ht.
        destruct (proj1 (add_appends_once s) Ht) as [_ Hc].
        rewrite E in Hc. apply Ht, trim_nil_of_nil, Hc.
      - intros Hne. destruct (truthy (trim (currentUrl s))) eqn:E;
          [reflexivity|].
        destruct Hne. apply add_appends_once, truthy_false_iff, E. }
    destruct (loading s), (truthy (trim (currentUrl s))); simpl;
      intuition discriminate.
Qed.

Lemma enabled_buttons_act_witness :
  let s := setCurrentUrl (lit "https://a.example") (setName (lit "Docs") init) in
  loading s = false /\ snd (handleSubmit s) <> [].
Proof.
  intros s. apply (proj1 (proj1 (enabled_buttons_act s))). reflexivity.
Defined.

(** X4: once either handler has issued a request, the form is loading
    with the error cleared, and the submit, defaults, add and remove
    buttons are all disabled. *)
Theorem request_in_flight_disables_buttons (s s1 : State) :
  (snd (handleSubmit s) <> [] /\ s1 = fst (handleSubmit s)) \/
  (snd (handleUseDefaults s) <> [] /\ s1 = fst (handleUseDefaults s)) ->
  loading s1 = true /\ error s1 = None /\
  submitDisabled s1 = true /\ defaultDisabled s1 = true /\
  addDisabled s1 = true /\ removeDisabled s1 = true.
Proof.
  intros [[H ->]|[H ->]].
  - apply handleSubmit_guard in H as [Hn Hg]. unfold handleSubmit.
    rewrite Hn, Hg; simpl.
    unfold submitDisabled, defaultDisabled, addDisabled, removeDisabled; simpl.
    repeat split; try reflexivity; apply orb_true_r.
  - apply handleUseDefaults_guard in H. unfold handleUseDefaults.
    rewrite H; simpl.
    unfold submitDisabled, defaultDisabled, addDisabled, removeDisabled; simpl.
    repeat split; try reflexivity; apply orb_true_r.
Qed.

Lemma request_in_flight_disables_buttons_witness :
  let s := setCurrentUrl (lit "https://a.example") (setName (lit "Docs") init) in
  submitDisabled (fst (handleSubmit s)) = true /\
  addDisabled (fst (handleSubmit s)) = true.
Proof.
  intros s.
  assert (H : snd (handleSubmit s) <> []) by discriminate.
  pose proof (@request_in_flight_disables_buttons s (fst (handleSubmit s))
                (or_introl (conj H eq_refl))) as (_ & _ & H1 & _ & H2 & _).
  split; assumption.
Defined.

(** What the user typed into the form. *)
Lemma handleSubmit_inputs (s : State) :
  let s1 := fst (handleSubmit s) in
  name s1 = name s /\ description s1 = description s /\
  urls s1 = urls s /\ currentUrl s1 = currentUrl s.
Proof.
  unfold handleSubmit. destruct (truthy (trim (name s))); simpl; auto.
  destruct ((length (filter nonBlank (urls s)) =? 0)
            && negb (truthy (trim (currentUrl s)))); simpl; auto.
Qed.

Lemma handleSubmit_same_inputs (s t : State) :
  name t = name s -> description t = description s ->
  urls t = urls s -> currentUrl t = currentUrl s ->
  snd (handleSubmit t) = snd (handleSubmit s).
Proof.
  intros Hn Hd Hu Hc. unfold handleSubmit. rewrite Hn, Hd, Hu, Hc.
  destruct (truthy (trim (name s))); simpl; [|reflexivity].
  destruct ((length (filter nonBlank (urls s)) =? 0)
            && negb (truthy (trim (currentUrl s)))); reflexivity.
Qed.

(** X5: when the creation fails, the form keeps what the user typed,
    stops loading, shows the error's message (or "Failed to create
    project"), does not report a created project, and submitting again
    sends the same request as before. *)
Theorem failed_creation_can_be_retried (s : State) (err : thrown) :
  let s2 := fst (settle (Rejected err) (fst (handleSubmit s))) in
  (name s2 = name s /\ description s2 = description s /\
   urls s2 = urls s /\ currentUrl s2 = currentUrl s) /\
  loading s2 = false /\
  error s2 = Some (messageOr (lit "Failed to create project") err) /\
  snd (settle (Rejected err) (fst (handleSubmit s))) = [] /\
  snd (handleSubmit s2) = snd (handleSubmit s).
Proof.
  intros s2. destruct (handleSubmit_inputs s) as (Hn & Hd & Hu & Hc).
  assert (H : name s2 = name s /\ description s2 = description s /\
              urls s2 = urls s /\ currentUrl s2 = currentUrl s)
    by (unfold s2; simpl; auto).
  split; [exact H|]. repeat split.
  destruct H as (Hn' & Hd' & Hu' & Hc').
  apply handleSubmit_same_inputs; assumption.
Qed.

(** X6: a settled creation reaches the application through
    [onProjectCreated] alone: a fulfilled one calls it once and the
    application shows the project list with no project selected, whatever it
    showed before; a rejected one does not call it and the application stays
    as it is. *)
Theorem creation_outcome_reaches_app (s : State) (a : App.AppState) :
  (forall p,
      snd (settle (Fulfilled p) s) = [OnProjectCreated] /\
      App.afterCreation (snd (settle (Fulfilled p) s)) a = App.init /\
      App.render (App.afterCreation (snd (settle (Fulfilled p) s)) a)
      = [App.ProjectListView]) /\
  (forall err, App.afterCreation (snd (settle (Rejected err) s)) a = a).
Proof.
  split; [intros p; repeat split | intros err; reflexivity].
Qed.

End CreateProjectMore.

(** ** More on the chat view *)

Module ChatMore.
Import Api ProjectChatInterface JSFacts ChatFacts Samples.

Lemma handleSubmit_idle (clk : Clock) (s : State) :
  snd (handleSubmit clk s) = None -> handleSubmit clk s = (s, None).
Proof.
  unfold handleSubmit. destruct (currentChat s); [|reflexivity].
  destruct (negb (truthy (trim (currentMessage s))) || loading s);
    [reflexivity | discriminate].
Qed.

(** X7: the submit handler, which the Enter key reaches without the
    button, stays idle exactly when the send button is disabled or no chat
    is open, and then leaves the state as it is; otherwise it sends the
    typed text, untrimmed, for the open chat. *)
Theorem send_guard_matches_button (clk : Clock) (s : State) :
  (snd (handleSubmit clk s) = None <->
   sendDisabled s = true \/ currentChat s = None) /\
  (snd (handleSubmit clk s) = None -> fst (handleSubmit clk s) = s) /\
  (forall chat,
      currentChat s = Some chat -> sendDisabled s = false ->
      snd (handleSubmit clk s)
      = Some {| sub_chat := chat; sub_question := currentMessage s |}) /\
  (forall key shiftKey,
      onKeyPress clk key shiftKey s = handleSubmit clk s \/
      onKeyPress clk key shiftKey s = (s, None)).
Proof.
  split; [|split; [|split]].
  - unfold handleSubmit, sendDisabled. destruct (currentChat s).
    + destruct (negb (truthy (trim (currentMessage s))) || loading s); simpl;
        split; auto; try discriminate. intros [H|H]; discriminate.
    + simpl; split; auto.
  - intros H. rewrite (handleSubmit_idle _ _ H). reflexivity.
  - intros chat Hc Hd. unfold handleSubmit, sendDisabled in *.
    rewrite Hc, Hd. reflexivity.
  - intros key shiftKey. unfold onKeyPress.
    destruct (str_eqb key (lit "Enter") && negb shiftKey); auto.
Qed.

Lemma send_guard_matches_button_witness :
  snd (handleSubmit noon (asking "hello"))
  = Some {| sub_chat := chatA; sub_question := lit "hello" |}.
Proof.
  apply (proj1 (proj2 (proj2 (send_guard_matches_button noon (asking "hello"))))
           chatA); reflexivity.
Defined.

Lemma step_keeps_loading (e : Event) (s : State) :
  settlesQuery e = false -> loading s = true -> loading (step e s) = true.
Proof.
  intros He Hl.
  destruct e as [v|v|chat|captured r|r|captured r|clk|clk chat r]; simpl;
    try exact Hl; try discriminate.
  - destruct r as [[|first l]|]; [exact Hl| |exact Hl].
    destruct captured; exact Hl.
  - destruct r; exact Hl.
  - destruct r; exact Hl.
  - unfold handleSubmit. destruct (currentChat s); [|exact Hl].
    rewrite Hl, orb_true_r. exact Hl.
Qed.

Lemma after_keeps_loading (es : list Event) :
  forallb (fun e => negb (settlesQuery e)) es = true ->
  forall s, loading s = true -> loading (after es s) = true.
Proof.
  unfold after. induction es as [|e es IH]; simpl; intros H s Hl; [exact Hl|].
  apply andb_true_iff in H as [He H]. apply negb_true_iff in He.
  apply IH; [exact H|]. apply step_keeps_loading; assumption.
Qed.

(** X8: from the submission of a question until its query settles, the
    view stays loading whatever else happens (typing, switching or creating
    chats, lists arriving), and no further submission sends anything or
    changes the state. *)
Theorem one_turn_in_flight (clk : Clock) (s s1 : State) sub (es : list Event) :
  handleSubmit clk s = (s1, Some sub) ->
  forallb (fun e => negb (settlesQuery e)) es = true ->
  loading (after es s1) = true /\
  sendDisabled (after es s1) = true /\
  forall clk2, handleSubmit clk2 (after es s1) = (after es s1, None).
Proof.
  intros H Hes. apply handleSubmit_pending in H as (_ & _ & _ & _ & ->).
  assert (Hl : loading
                 (after es
                    (setLoading true
                       (setCurrentMessage []
                          (appendMessage (userMessage clk (currentMessage s)) s))))
               = true)
    by (apply after_keeps_loading; [exact Hes | reflexivity]).
  split; [exact Hl|]. split.
  - unfold sendDisabled. rewrite Hl. apply orb_true_r.
  - intros clk2. unfold handleSubmit. rewrite Hl, orb_true_r.
    destruct (currentChat _); reflexivity.
Qed.

Lemma one_turn_in_flight_witness :
  handleSubmit noon
    (after [TypeMessage (lit "again"); ClickChat chatB]
           (fst (handleSubmit noon (asking "hello"))))
  = (after [TypeMessage (lit "again"); ClickChat chatB]
           (fst (handleSubmit noon (asking "hello"))), None).
Proof.
  refine (proj2 (proj2 (@one_turn_in_flight noon (asking "hello")
            (fst (handleSubmit noon (asking "hello")))
            {| sub_chat := chatA; sub_question := lit "hello" |}
            [TypeMessage (lit "again"); ClickChat chatB] _ _)) noon);
    reflexivity.
Defined.

Lemma filter_otherThan_fresh (C : Chat) (l : list Chat) :
  ~ In (chat_id C) (map chat_id l) -> filter (otherThan C) l = l.
Proof.
  induction l as [|x l IH]; simpl; intros H; [reflexivity|].
  rewrite otherThan_distinct by (intros E; apply H; left; exact E).
  rewrite IH; [reflexivity|]. intros Hin; apply H; right; exact Hin.
Qed.

Lemma move_to_front_perm (C : Chat) (l : list Chat) :
  NoDup (map chat_id l) -> In C l ->
  Permutation (C :: filter (otherThan C) l) l.
Proof.
  induction l as [|x l IH]; simpl; intros Hnd Hin; [contradiction|].
  inversion Hnd as [|? ? Hx Hl]; subst.
  destruct Hin as [->|Hin].
  - rewrite otherThan_self, filter_otherThan_fresh by exact Hx. reflexivity.
  - rewrite otherThan_distinct.
    + rewrite perm_swap. constructor. apply IH; assumption.
    + intros E. apply Hx. rewrite E. apply in_map, Hin.
Qed.

(** X9: when the chats of the list have distinct ids and the queried chat
    is among them, a successful query only reorders the list: no chat is
    lost or doubled.  Whatever the list, a second successful query in the
    same chat leaves the order as the first one made it. *)
Theorem move_to_front_keeps_the_chats :
  (forall clk C response s,
      NoDup (map chat_id (chats s)) -> In C (chats s) ->
      Permutation (chats (handleSubmit_settle clk C (Fulfilled response) s))
                  (chats s)) /\
  (forall clk clk' C response response' s,
      chats (handleSubmit_settle clk' C (Fulfilled response')
               (handleSubmit_settle clk C (Fulfilled response) s))
      = chats (handleSubmit_settle clk C (Fulfilled response) s)).
Proof.
  split.
  - intros clk C response s Hnd Hin. simpl. apply move_to_front_perm; assumption.
  - intros clk clk' C response response' s. simpl.
    rewrite otherThan_self. f_equal.
    induction (chats s) as [|x l IH]; simpl; [reflexivity|].
    destruct (otherThan C x) eqn:E; simpl; [rewrite E, IH|]; auto.
Qed.

Lemma move_to_front_keeps_the_chats_witness :
  Permutation
    (chats (handleSubmit_settle noon chatA (Fulfilled greeting)
              (setChats [chatB; chatA] init)))
    [chatB; chatA].
Proof.
  apply (proj1 move_to_front_keeps_the_chats noon chatA greeting
           (setChats [chatB; chatA] init)).
  - repeat constructor; simpl; intuition discriminate.
  - right; left; reflexivity.
Defined.

(** X10: after a chat is created, and after a whole turn whose query
    succeeds, the open chat is the first of the list; a created chat is
    also highlighted and starts with an empty transcript. *)
Theorem open_chat_heads_the_list :
  (forall captured newChat s,
      let s' := createNewChat_settle captured (Fulfilled newChat) s in
      hd_error (chats s') = currentChat s' /\
      isActive s' newChat = true /\ messages s' = []) /\
  (forall send clk clk' s s1 sub response,
      handleSubmit clk s = (s1, Some sub) ->
      queryRAG send (chat_id (sub_chat sub)) (sub_question sub)
        = Fulfilled response ->
      let s' := submitTurn send clk clk' s in
      hd_error (chats s') = currentChat s').
Proof.
  split.
  - intros captured newChat s; simpl. repeat split.
    unfold isActive; simpl. apply str_eqb_eq; reflexivity.
  - intros send clk clk' s s1 sub response H Hq. unfold submitTurn.
    rewrite H, Hq.
    apply handleSubmit_pending in H as (Hc & _ & _ & _ & ->). simpl.
    symmetry; exact Hc.
Qed.

Lemma open_chat_heads_the_list_witness :
  hd_error (chats (submitTurn (fun _ => Fulfilled {| data := greeting |})
                     noon noon (asking "hello")))
  = Some chatA.
Proof.
  apply (proj2 open_chat_heads_the_list
           (fun _ => Fulfilled {| data := greeting |}) noon noon
           (asking "hello") (fst (handleSubmit noon (asking "hello")))
           {| sub_chat := chatA; sub_question := lit "hello" |} greeting);
    reflexivity.
Defined.

(** X11: the reply is appended to the transcript on screen when the query
    settles.  If another chat was opened during the wait, that chat stays
    open and its emptied transcript receives the reply to the question asked
    in the first chat, while a successful reply still moves the first chat
    to the head of the list. *)
Theorem reply_lands_in_the_open_transcript
        (clk clk' : Clock) (s s1 : State) sub (B : Chat)
        (r : settled QueryResponse) :
  handleSubmit clk s = (s1, Some sub) ->
  let s' := handleSubmit_settle clk' (sub_chat sub) r (switchChat B s1) in
  currentChat s' = Some B /\
  messages s' = [match r with
                 | Fulfilled response => assistantMessage clk' response
                 | Rejected err => errorMessage clk' err
                 end] /\
  loading s' = false /\
  (forall response, r = Fulfilled response ->
                    hd_error (chats s') = Some (sub_chat sub)).
Proof.
  intros H. apply handleSubmit_pending in H as (_ & _ & _ & _ & ->).
  destruct r; simpl; repeat split; intros; try reflexivity; discriminate.
Qed.

Lemma reply_lands_in_the_open_transcript_witness :
  messages (handleSubmit_settle noon chatA (Fulfilled greeting)
              (switchChat chatB (fst (handleSubmit noon (asking "hello")))))
  = [assistantMessage noon greeting].
Proof.
  refine (proj1 (proj2 (@reply_lands_in_the_open_transcript noon noon
            (asking "hello") (fst (handleSubmit noon (asking "hello")))
            {| sub_chat := chatA; sub_question := lit "hello" |}
            chatB (Fulfilled greeting) _))).
  reflexivity.
Defined.

Lemma lit_inj (a b : string) : lit a = lit b -> a = b.
Proof.
  unfold lit. intros H.
  rewrite <- (string_of_list_ascii_of_string a),
          <- (string_of_list_ascii_of_string b).
  f_equal. revert H. generalize (list_ascii_of_string b).
  induction (list_ascii_of_string a) as [|x l IH]; intros [|y m]; simpl;
    try discriminate; [reflexivity|].
  intros H; injection H as Hx Hl. f_equal; [|apply IH, Hl].
  rewrite <- (ascii_N_embedding x), <- (ascii_N_embedding y), Hx. reflexivity.
Qed.

(** Reading a printed integer back. *)
Lemma read_printed (z : Z) :
  option_map Z.of_int (NilZero.int_of_string (NilZero.string_of_int (Z.to_int z)))
  = Some z.
Proof.
  pose proof (DecimalZ.of_to z) as Hz.
  assert (H : forall d, Z.of_int d = z ->
                option_map Z.of_int
                  (NilZero.int_of_string (NilZero.string_of_int d)) = Some z).
  { intros d Hd.
    destruct d as [[| | | | | | | | | |]|[| | | | | | | | | |]];
      try (rewrite NilZero.isi by discriminate; unfold option_map;
           f_equal; exact Hd).
    - rewrite NilZero.isi_posnil, <- Hd. reflexivity.
    - rewrite NilZero.isi_negnil, <- Hd. reflexivity. }
  apply H, Hz.
Qed.

Lemma toString_inj (a b : Z) : toString a = toString b -> a = b.
Proof.
  unfold toString. intros H. apply lit_inj in H.
  pose proof (read_printed a) as Ha. rewrite H, read_printed in Ha.
  congruence.
Qed.

(** X12: the ids the view gives its own messages come from the clock, and
    different readings print differently; so when the clock has not gone
    back between the submission and the failure, the error message's id
    differs from the id of the question's message, also within one
    millisecond. *)
Theorem error_id_differs_from_user_id (clk clk' : Clock) text err :
  (now clk <= now clk')%Z ->
  id (userMessage clk text) <> id (errorMessage clk' err).
Proof.
  intros H E. simpl in E. apply toString_inj in E. lia.
Qed.

Lemma error_id_differs_from_user_id_witness :
  id (userMessage noon (lit "hello")) <> id (errorMessage noon OtherValue).
Proof.
  apply error_id_differs_from_user_id. simpl. lia.
Defined.

(** X13: no event closes the open chat: once a chat is open, one stays
    open after any run of events, and the input form stays on screen. *)
Theorem open_chat_stays_open (es : list Event) (s : State) :
  currentChat s <> None -> currentChat (after es s) <> None.
Proof.
  unfold after. revert s. induction es as [|e es IH]; simpl; intros s H;
    [exact H|].
  apply IH.
  destruct e as [v|v|chat|captured r|r|captured r|clk|clk chat r]; simpl;
    try exact H; try discriminate.
  - destruct r as [[|first l]|]; [exact H| |exact H].
    destruct captured; [exact H | discriminate].
  - destruct r; exact H.
  - destruct r; [discriminate | exact H].
  - unfold handleSubmit. destruct (currentChat s) eqn:E; [|contradiction].
    destruct (negb (truthy (trim (currentMessage s))) || loading s); simpl;
      rewrite ?E; discriminate.
  - destruct r; exact H.
Qed.

Lemma open_chat_stays_open_witness :
  currentChat (after [ChatsSettled None (Fulfilled []);
                      MessagesSettled (Rejected OtherValue)]
                     (asking "hello")) <> None.
Proof.
  apply open_chat_stays_open. discriminate.
Defined.

End ChatMore.

(** ** The client, the application shell and the dashboard *)

Module ShellFacts.
Import Api.

(** X15: ids are spliced into the path as they are: asking for the
    project whose id is [i] followed by "/chats" sends the very request that
    lists the chats of project [i]. *)
Theorem project_path_is_not_escaped (i : jsstring) :
  getProject_request (i ++ lit "/chats") = getChats_request i.
Proof.
  unfold getProject_request, getChats_request. reflexivity.
Qed.

Lemma run_snoc {S E : Type} (f : S -> E -> S) (es : list E) (e : E) (s : S) :
  fold_left f (es ++ [e]) s = f (fold_left f es s) e.
Proof. rewrite fold_left_app. reflexivity. Qed.

(** X16: after any run of callbacks the application has a project selected
    exactly when it is in the chat stage, and its three conditionals mount
    exactly one component: the project list, the form, or the chat view of
    the selected project. *)
Theorem one_view_at_a_time (es : list App.Event) :
  let s := App.run es in
  (App.stage s = App.chat <-> App.selectedProject s <> None) /\
  App.render s =
    [match App.stage s, App.selectedProject s with
     | App.chat, Some project => App.ProjectChatInterfaceView project
     | App.create_project, _ => App.CreateProjectView
     | _, _ => App.ProjectListView
     end] /\
  (forall project, App.selectedProject s = Some project ->
                   App.render s = [App.ProjectChatInterfaceView project]).
Proof.
  assert (H : App.run es = App.init \/
              App.run es = {| App.stage := App.create_project;
                              App.selectedProject := None |} \/
              exists p, App.run es = {| App.stage := App.chat;
                                        App.selectedProject := Some p |}).
  { induction es as [|e es _] using rev_ind; [left; reflexivity|].
    unfold App.run. rewrite run_snoc.
    destruct e; simpl;
      [right; left | left | right; right; eexists | left | left];
      reflexivity. }
  destruct H as [-> | [-> | [p ->]]]; simpl; repeat split;
    try discriminate; try reflexivity; try (intros H; congruence).
  intros project H; injection H as ->; reflexivity.
Qed.

Lemma one_view_at_a_time_witness :
  App.render (App.run [App.OnCreateProject; App.OnCancel;
                       App.OnSelectProject
                         {| project_id := lit "p"; project_name := lit "Docs";
                            project_description := None; project_urls := [];
                            project_created_at := lit "2024-01-01T00:00:00Z";
                            project_updated_at := lit "2024-01-01T00:00:00Z" |}])
  = [App.ProjectChatInterfaceView
       {| project_id := lit "p"; project_name := lit "Docs";
          project_description := None; project_urls := [];
          project_created_at := lit "2024-01-01T00:00:00Z";
          project_updated_at := lit "2024-01-01T00:00:00Z" |}].
Proof.
  refine (proj2 (proj2 (one_view_at_a_time
            [App.OnCreateProject; App.OnCancel; App.OnSelectProject _])) _ _).
  reflexivity.
Defined.

Lemma mapOrThrow_throws {A B : Type} (f : A -> option B) (l : list A) :
  ProjectList.mapOrThrow f l = None <-> exists x, In x l /\ f x = None.
Proof.
  induction l as [|x l IH]; simpl.
  - split; [discriminate | intros (x & [] & _)].
  - destruct (f x) as [y|] eqn:E.
    + destruct (ProjectList.mapOrThrow f l) as [ys|].
      * split; [discriminate|]. intros (z & [<-|Hz] & Hf); [congruence|].
        assert (H : Some ys = None) by (apply IH; exists z; auto).
        discriminate.
      * split; [|reflexivity]. intros _.
        destruct (proj1 IH eq_refl) as (z & Hz & Hf). exists z; auto.
    + split; [|reflexivity]. intros _. exists x; auto.
Qed.

Lemma mapOrThrow_values {A B : Type} (f : A -> option B) (l : list A) ys :
  ProjectList.mapOrThrow f l = Some ys -> map Some ys = map f l.
Proof.
  revert ys. induction l as [|x l IH]; simpl; intros ys H.
  - injection H as <-; reflexivity.
  - destruct (f x) as [y|]; [|discriminate].
    destruct (ProjectList.mapOrThrow f l) as [zs|]; [|discriminate].
    injection H as <-. simpl. rewrite (IH zs eq_refl). reflexivity.
Qed.

Section Cards.
Variable hostname : jsstring -> option jsstring.

(** X17: a project card shows the hostnames of the first three source
    URLs at most, in order, and the "+n more" line exactly when there are
    more than three, with [n] positive and the listed ones plus [n] making
    the number of sources.  Rendering a card throws exactly when one of its
    first three URLs does not parse; later URLs are never parsed.  The
    dashboard, once loaded, throws exactly when a card does. *)
Theorem card_accounts_for_all_sources (p : Project) :
  (ProjectList.card hostname p = None <->
   exists u, In u (firstn 3 (project_urls p)) /\ hostname u = None) /\
  (forall c,
      ProjectList.card hostname p = Some c ->
      map Some (ProjectList.card_hosts c)
      = map hostname (firstn 3 (project_urls p)) /\
      length (ProjectList.card_hosts c) <= 3 /\
      ProjectList.card_source_count c = length (project_urls p) /\
      match ProjectList.card_more c with
      | Some n =>
          0 < n /\
          length (ProjectList.card_hosts c) + n = length (project_urls p)
      | None => length (ProjectList.card_hosts c) = length (project_urls p)
      end) /\
  (forall s,
      ProjectList.render hostname s = None <->
      ProjectList.loading s = false /\
      exists q u, In q (ProjectList.projects s) /\
                  In u (firstn 3 (project_urls q)) /\ hostname u = None).
Proof.
  assert (Hcard : forall q,
             ProjectList.card hostname q = None <->
             exists u, In u (firstn 3 (project_urls q)) /\ hostname u = None).
  { intros q. unfold ProjectList.card, ProjectList.slice0.
    rewrite <- mapOrThrow_throws.
    destruct (ProjectList.mapOrThrow hostname (firstn 3 (project_urls q)));
      split; congruence. }
  split; [apply Hcard|]. split.
  - intros c Hc. unfold ProjectList.card, ProjectList.slice0 in Hc.
    destruct (ProjectList.mapOrThrow hostname (firstn 3 (project_urls p)))
      as [hosts|] eqn:E; [|discriminate].
    injection Hc as <-. simpl.
    pose proof (mapOrThrow_values _ _ E) as Hv.
    assert (Hlen : length hosts = length (firstn 3 (project_urls p))).
    { rewrite <- (length_map Some hosts), Hv, length_map. reflexivity. }
    rewrite length_firstn in Hlen.
    split; [exact Hv|]. split; [lia|]. split; [reflexivity|].
    unfold ProjectList.moreSources.
    destruct (Nat.ltb 3 (length (project_urls p))) eqn:L.
    + apply Nat.ltb_lt in L. lia.
    + apply Nat.ltb_ge in L. lia.
  - intros s. unfold ProjectList.render.
    destruct (ProjectList.loading s).
    + split; [discriminate | intros [H _]; discriminate].
    + destruct (ProjectList.mapOrThrow (ProjectList.card hostname)
                  (ProjectList.projects s)) as [cards|] eqn:E.
      * split; [discriminate|]. intros (_ & q & u & Hq & Hu & Hf).
        assert (H : ProjectList.mapOrThrow (ProjectList.card hostname)
                      (ProjectList.projects s) = None).
        { apply mapOrThrow_throws. exists q; split; [exact Hq|].
          apply Hcard. exists u; auto. }
        congruence.
      * split; [|reflexivity]. intros _. split; [reflexivity|].
        apply mapOrThrow_throws in E as (q & Hq & Hc).
        apply Hcard in Hc as (u & Hu & Hf). exists q, u; auto.
Qed.
End Cards.

Lemma card_accounts_for_all_sources_witness :
  ProjectList.card Samples.httpsHost
    (Samples.docsProject [lit "https://a.example/docs"; lit "b.example"])
  = None /\
  ProjectList.card Samples.httpsHost
    (Samples.docsProject
       [lit "https://a.example/docs"; lit "https://b.example/x";
        lit "https://c.example/"; lit "d.example"; lit "e.example"])
  = Some {| ProjectList.card_name := lit "Docs";
            ProjectList.card_description := None;
            ProjectList.card_source_count := 5;
            ProjectList.card_hosts :=
              [lit "a.example"; lit "b.example"; lit "c.example"];
            ProjectList.card_more := Some 2 |}.
Proof.
  split; [|reflexivity].
  apply (proj1 (card_accounts_for_all_sources Samples.httpsHost
                  (Samples.docsProject
                     [lit "https://a.example/docs"; lit "b.example"]))).
  exists (lit "b.example"). split; [right; left; reflexivity | reflexivity].
Defined.

End ShellFacts.
